(** * Oracle core of the Quadruple Goddess divination program

    A shallow embedding of the hexagram casting engine ([IChingCaster],
    [QuadrupleGoddessSystem.cast_iching_traditional]) and of the magic
    square generator ([MagicSquareGenerator],
    [QuadrupleGoddessSystem.generate_custom_square]) of
    [src/divination/sarah_fm2.5.py], with the properties the specification
    states about them.

    Python integers are [Z]; Python lists are [list]; Python [str] values
    are [string]; dictionaries with string keys are [gmap string _]. *)

From stdpp Require Import base numbers list strings gmap.
From Stdlib Require Import ZArith QArith Lia Permutation Ascii.
From coqutil Require Import Z.PushPullMod.

Local Open Scope Z_scope.

(** ** The random module

    The generator behind Python's [random] module is outside the program.
    It is modelled as an unbounded tape of raw integers together with a
    read position; every library call consumes one cell.  Any sequence of
    results the library calls can return is produced by some tape, and
    every tape produces admissible results only, so a statement quantified
    over all sources covers every run of the program. *)

Record RandomSource := { tape : nat → Z; pos : nat }.

Definition Rand (A : Type) : Type := RandomSource → A * RandomSource.

#[global] Instance rand_ret : MRet Rand := λ A x s, (x, s).
#[global] Instance rand_bind : MBind Rand :=
  λ A B f m s, let '(x, s') := m s in f x s'.

Definition next_raw : Rand Z :=
  λ s, (tape s (pos s), {| tape := tape s; pos := S (pos s) |}).

(** [random.random()]: a float [k / 2^53] with [0 <= k < 2^53], kept as the
    exact rational it denotes. *)
Definition random_random : Rand Q :=
  raw ← next_raw; mret (Qmake (raw `mod` 2 ^ 53) (2 ^ 53)).

(** [random.randint(a, b)]: an integer of [[a, b]] (called with [a <= b]). *)
Definition random_randint (a b : Z) : Rand Z :=
  raw ← next_raw; mret (a + raw `mod` (b - a + 1)).

(** ** Python control structures *)

(** [range(n)] *)
Definition range (n : nat) : list Z := Z.of_nat <$> seq 0 n.

(** [for x in xs: st = body(x, st)] *)
Fixpoint for_each {A St : Type} (xs : list A) (body : A → St → Rand St)
    (st : St) : Rand St :=
  match xs with
  | [] => mret st
  | x :: xs' => st' ← body x st; for_each xs' body st'
  end.

(** [[e for _ in range(n)]] for an expression [e] that draws from the
    random source. *)
Fixpoint comprehension {A : Type} (n : nat) (e : Rand A) : Rand (list A) :=
  match n with
  | O => mret []
  | S n' => x ← e; xs ← comprehension n' e; mret (x :: xs)
  end.

(** [sum(xs)] *)
Definition sum (xs : list Z) : Z := foldl Z.add 0 xs.

(** [x % m] with Python's sign convention (the sign of [m]), which is the
    one of [Z.modulo]. *)
Notation "x %% m" := (Z.modulo x m) (at level 40, left associativity).

(** ** IChingCaster *)

Module IChingCaster.

(** One coin of [cast_coins]: [3 if random.random() > 0.5 else 2]. *)
Definition coin : Rand Z :=
  x ← random_random; mret (if Qlt_le_dec (1 # 2) x then 3 else 2).

(** The three-coin total of one line. *)
Definition coin_total : Rand Z := coins ← comprehension 3 coin; mret (sum coins).

(** The [if]/[elif] chain of [cast_coins] on a total, acting on the two
    lists the loop appends to. *)
Definition coins_record (line_num total : Z) (st : list Z * list Z)
    : list Z * list Z :=
  let '(hexagram_lines, changing_lines) := st in
  if total =? 6 then (hexagram_lines ++ [0], changing_lines ++ [line_num + 1])
  else if total =? 7 then (hexagram_lines ++ [1], changing_lines)
  else if total =? 8 then (hexagram_lines ++ [0], changing_lines)
  else if total =? 9 then (hexagram_lines ++ [1], changing_lines ++ [line_num + 1])
  else (hexagram_lines, changing_lines).

(** Body of the loop of [cast_coins]. *)
Definition coins_body (line_num : Z) (st : list Z * list Z)
    : Rand (list Z * list Z) :=
  total ← coin_total; mret (coins_record line_num total st).

Definition cast_coins : Rand (list Z * list Z) :=
  '(hexagram_lines, changing_lines) ← for_each (range 6) coins_body ([], []);
  mret (reverse hexagram_lines, changing_lines).

(** The remainder rule of the yarrow method:
    [4 if (group % 4 == 0) else group % 4]. *)
Definition stalk_remainder (group : Z) : Z :=
  if group %% 4 =? 0 then 4 else group %% 4.

(** Python's [(b1) * 2 + (b2) * 3] on booleans. *)
Definition bool_int (b : bool) : Z := if b then 1 else 0.

(** The local variables of one line of [cast_yarrow_stalks] that the inner
    loop updates; [remainder] is unbound before the first division and is
    given as 0 there. *)
Record yarrow_locals := {
  stalks : Z;
  line_value : Z;
  remainder : Z
}.

(** Body of the inner loop ([for division in range(3)]). *)
Definition division_body (division : Z) (l : yarrow_locals) : Rand yarrow_locals :=
  let stalks1 := stalks l - 1 in
  group1 ← (if 1 <? stalks1 then random_randint 1 (stalks1 - 1) else mret 1);
  let group2 := stalks1 - group1 in
  let remainder1 := stalk_remainder group1 in
  let remainder2 := stalk_remainder group2 in
  let remainder := remainder1 + remainder2 in
  let stalks2 := stalks1 - remainder in
  mret {| stalks := stalks2;
          line_value :=
            if division =? 2
            then bool_int (remainder =? 4) * 2 + bool_int (remainder =? 8) * 3
            else line_value l;
          remainder := remainder |}.

(** The three divisions of one line, from 50 stalks and line value 0. *)
Definition yarrow_divisions : Rand yarrow_locals :=
  for_each (range 3) division_body
    {| stalks := 50; line_value := 0; remainder := 0 |}.

(** The [if]/[elif] chain of [cast_yarrow_stalks] on a line value. *)
Definition yarrow_record (line_position line_value : Z) (st : list Z * list Z)
    : list Z * list Z :=
  let '(hexagram_lines, changing_lines) := st in
  if line_value =? 6 then
    (hexagram_lines ++ [0], changing_lines ++ [6 - line_position])
  else if line_value =? 7 then (hexagram_lines ++ [1], changing_lines)
  else if line_value =? 8 then (hexagram_lines ++ [0], changing_lines)
  else if line_value =? 9 then
    (hexagram_lines ++ [1], changing_lines ++ [6 - line_position])
  else (hexagram_lines, changing_lines).

(** Body of the outer loop ([for line_position in range(6)]). *)
Definition yarrow_body (line_position : Z) (st : list Z * list Z)
    : Rand (list Z * list Z) :=
  l ← yarrow_divisions; mret (yarrow_record line_position (line_value l) st).

Definition cast_yarrow_stalks : Rand (list Z * list Z) :=
  '(hexagram_lines, changing_lines) ← for_each (range 6) yarrow_body ([], []);
  mret (reverse hexagram_lines,
        match changing_lines with
        | [] => []
        | _ => (λ line, 7 - line) <$> changing_lines
        end).

(** The dictionary [trigrams] of [get_trigram_symbols]. *)
Definition trigrams : gmap string string :=
  list_to_map
    [ ("111", "☰"); ("110", "☱"); ("101", "☲"); ("100", "☳");
      ("011", "☴"); ("010", "☵"); ("001", "☶"); ("000", "☷") ]%string.

(** [s[n:]] and [s[:n]] for [0 <= n]. *)
Definition slice_from (n : nat) (s : string) : string :=
  String.substring n (String.length s - n) s.
Definition slice_to (n : nat) (s : string) : string :=
  String.substring 0 (n `min` String.length s) s.

(** [get_trigram_symbols]; the pair is returned lower symbol first. *)
Definition get_trigram_symbols (binary_str : string) : string * string :=
  if decide (String.length binary_str = 6%nat) then
    let lower_trigram := slice_from 3 binary_str in
    let upper_trigram := slice_to 3 binary_str in
    let lower_symbol := default "?"%string (trigrams !! lower_trigram) in
    let upper_symbol := default "?"%string (trigrams !! upper_trigram) in
    (lower_symbol, upper_symbol)
  else ("?", "?")%string.

(** [get_trigram_name] *)
Definition trigram_names : gmap string string :=
  list_to_map
    [ ("☰", "Heaven"); ("☱", "Lake"); ("☲", "Fire"); ("☳", "Thunder");
      ("☴", "Wind"); ("☵", "Water"); ("☶", "Mountain"); ("☷", "Earth") ]%string.

Definition get_trigram_name (symbol : string) : string :=
  default "Unknown"%string (trigram_names !! symbol).

End IChingCaster.

(** ** Python list indexing

    [l[i]] and [l[i] = x] accept [-len(l) <= i < len(l)] and raise
    [IndexError] otherwise; [None] stands for the exception. *)

Definition py_index (len : nat) (i : Z) : option nat :=
  if decide (0 ≤ i < Z.of_nat len) then Some (Z.to_nat i)
  else if decide (- Z.of_nat len ≤ i < 0) then Some (Z.to_nat (Z.of_nat len + i))
  else None.

Definition getitem {A : Type} (l : list A) (i : Z) : option A :=
  k ← py_index (length l) i; l !! k.

Definition setitem {A : Type} (l : list A) (i : Z) (x : A) : option (list A) :=
  k ← py_index (length l) i; Some (<[k := x]> l).

(** [range(lo, hi)] *)
Definition range_from (lo hi : Z) : list Z := seqZ lo (hi - lo).

(** [for x in xs: st = body(x, st)] where the body may raise. *)
Fixpoint for_each_opt {A St : Type} (xs : list A) (body : A → St → option St)
    (st : St) : option St :=
  match xs with
  | [] => Some st
  | x :: xs' => st' ← body x st; for_each_opt xs' body st'
  end.

(** ** MagicSquareGenerator *)

Module MagicSquareGenerator.

Definition generate_saturn_square (_ : unit) : list (list Z) :=
  [ [4; 9; 2];
    [3; 5; 7];
    [8; 1; 6] ].

Definition generate_jupiter_square (_ : unit) : list (list Z) :=
  [ [4; 14; 15; 1];
    [9; 7; 6; 12];
    [5; 11; 10; 8];
    [16; 2; 3; 13] ].

Definition generate_mars_square (_ : unit) : list (list Z) :=
  [ [11; 24; 7; 20; 3];
    [4; 12; 25; 8; 16];
    [17; 5; 13; 21; 9];
    [10; 18; 1; 14; 22];
    [23; 6; 19; 2; 15] ].

Definition generate_sun_square (_ : unit) : list (list Z) :=
  [ [6; 32; 3; 34; 35; 1];
    [7; 11; 27; 28; 8; 30];
    [19; 14; 16; 15; 23; 24];
    [18; 20; 22; 21; 17; 13];
    [25; 29; 10; 9; 26; 12];
    [36; 5; 33; 4; 2; 31] ].

Definition generate_venus_square (_ : unit) : list (list Z) :=
  [ [22; 47; 16; 41; 10; 35; 4];
    [5; 23; 48; 17; 42; 11; 29];
    [30; 6; 24; 49; 18; 36; 12];
    [13; 31; 7; 25; 43; 19; 37];
    [38; 14; 32; 1; 26; 44; 20];
    [21; 39; 8; 33; 2; 27; 45];
    [46; 15; 40; 9; 34; 3; 28] ].

Definition generate_mercury_square (_ : unit) : list (list Z) :=
  [ [8; 58; 59; 5; 4; 62; 63; 1];
    [49; 15; 14; 52; 53; 11; 10; 56];
    [41; 23; 22; 44; 45; 19; 18; 48];
    [32; 34; 35; 29; 28; 38; 39; 25];
    [40; 26; 27; 37; 36; 30; 31; 33];
    [17; 47; 46; 20; 21; 43; 42; 24];
    [9; 55; 54; 12; 13; 51; 50; 16];
    [64; 2; 3; 61; 60; 6; 7; 57] ].

Definition generate_moon_square (_ : unit) : list (list Z) :=
  [ [37; 78; 29; 70; 21; 62; 13; 54; 5];
    [6; 38; 79; 30; 71; 22; 63; 14; 46];
    [47; 7; 39; 80; 31; 72; 23; 55; 15];
    [16; 48; 8; 40; 81; 32; 64; 24; 56];
    [57; 17; 49; 9; 41; 73; 33; 65; 25];
    [26; 58; 18; 50; 1; 42; 74; 34; 66];
    [67; 27; 59; 10; 51; 2; 43; 75; 35];
    [36; 68; 19; 60; 11; 52; 3; 44; 76];
    [77; 28; 69; 20; 61; 12; 53; 4; 45] ].

(** The dictionary [planet_squares]: planet name to (size, generator). *)
Definition planet_squares : gmap string (Z * (unit → list (list Z))) :=
  list_to_map
    [ ("Saturn", (3, generate_saturn_square));
      ("Jupiter", (4, generate_jupiter_square));
      ("Mars", (5, generate_mars_square));
      ("Sun", (6, generate_sun_square));
      ("Venus", (7, generate_venus_square));
      ("Mercury", (8, generate_mercury_square));
      ("Moon", (9, generate_moon_square)) ]%string.

(** [get_square_by_planet(planet_name, size=None)]; the [size] argument is
    overwritten before any use. *)
Definition get_square_by_planet (planet_name : string) (size : option Z)
    : list (list Z) * Z :=
  match planet_squares !! planet_name with
  | Some (size, generator) => (generator (), size)
  | None => (generate_saturn_square (), 3)
  end.

(** The magic constant as [display_square] computes it:
    [size * (size**2 + 1) // 2]. *)
Definition magic_constant (size : Z) : Z := (size * (size ^ 2 + 1)) `div` 2.

End MagicSquareGenerator.

(** ** QuadrupleGoddessSystem *)

(** Values stored in the records of the correspondence tables. *)
Inductive pyval :=
  | PyInt (n : Z)
  | PyStr (s : string).

(** The result dictionary of [cast_iching_traditional]; the two keys that
    are set only when there are changing lines are optional fields.
    Trigram pairs are (lower, upper). *)
Record iching_result := {
  binary : string;
  lines : list Z;
  changing_lines : list Z;
  primary : gmap string pyval;
  trigram_symbols : string * string;
  secondary : option (gmap string pyval);
  secondary_trigram_symbols : option (string * string)
}.

#[global] Instance pyval_eq_dec : EqDecision pyval.
Proof. solve_decision. Defined.

(** [d.get(key, dflt)] on a record. *)
Definition dict_get (d : gmap string pyval) (key : string) (dflt : pyval) : pyval :=
  default dflt (d !! key).

(** [d.get(key, dflt)] on a dictionary with string keys, for a key that is
    any value: only a string can be found. *)
Definition str_dict_get {V : Type} (d : gmap string V) (key : pyval) (dflt : V) : V :=
  match key with
  | PyStr s => default dflt (d !! s)
  | PyInt _ => dflt
  end.

(** ** Python strings of integers *)

(** The decimal digits of a natural number, most significant first;
    [fuel] bounds their number. *)
Fixpoint digits_upto (fuel : nat) (n : Z) : list Z :=
  match fuel with
  | O => []
  | S fuel' =>
      if n <? 10 then [n] else digits_upto fuel' (n `div` 10) ++ [n `mod` 10]
  end.

(** A number has no more decimal digits than binary ones. *)
Definition decimal_digits (n : Z) : list Z :=
  digits_upto (S (Z.to_nat (Z.log2 n))) n.

Definition digit_char (d : Z) : ascii := ascii_of_nat (48 + Z.to_nat d).

(** [str(n)] for an integer [n]. *)
Definition py_str_int (n : Z) : string :=
  if n <? 0 then
    String "-" (String.string_of_list_ascii (digit_char <$> decimal_digits (- n)))
  else String.string_of_list_ascii (digit_char <$> decimal_digits n).



(** ** Python strings and dictionaries *)

(** [sub in s] for two strings. *)
Fixpoint contains (sub s : string) : bool :=
  if String.prefix sub s then true
  else match s with
       | EmptyString => false
       | String _ s' => contains sub s'
       end.

(** [str(v)] *)
Definition py_str (v : pyval) : string :=
  match v with
  | PyInt n => py_str_int n
  | PyStr s => s
  end.

(** The truth value of [v]: zero and the empty string are false. *)
Definition truthy (v : pyval) : bool :=
  match v with
  | PyInt n => negb (n =? 0)
  | PyStr s => negb (String.eqb s EmptyString)
  end.

(** A dictionary whose keys are arbitrary values, as the list of its
    items in insertion order; [d[k] = v] keeps the place of a key that is
    already there. *)
Fixpoint dict_store {K V : Type} `{EqDecision K} (d : list (K * V)) (k : K) (v : V)
    : list (K * V) :=
  match d with
  | [] => [(k, v)]
  | (k', v') :: d' =>
      if decide (k' = k) then (k', v) :: d' else (k', v') :: dict_store d' k v
  end.

(** The dictionary display [{k1: v1, k2: v2, ...}]. *)
Definition dict_display {K V : Type} `{EqDecision K} (items : list (K * V))
    : list (K * V) :=
  foldl (λ d kv, dict_store d kv.1 kv.2) [] items.

(** [d.get(k)] on such a dictionary. *)
Fixpoint assoc_get {K V : Type} `{EqDecision K} (d : list (K * V)) (k : K)
    : option V :=
  match d with
  | [] => None
  | (k', v) :: d' => if decide (k' = k) then Some v else assoc_get d' k
  end.

(** [max(xs, key=key)]: the first of the items whose key is greatest;
    [None] stands for the [ValueError] raised on an empty sequence. *)
Fixpoint py_max_from {A : Type} (key : A → Z) (best : A) (xs : list A) : A :=
  match xs with
  | [] => best
  | x :: xs' => py_max_from key (if key best <? key x then x else best) xs'
  end.

Definition py_max {A : Type} (key : A → Z) (xs : list A) : option A :=
  match xs with
  | [] => None
  | x :: xs' => Some (py_max_from key x xs')
  end.

(** [all(cond(e) for e in es if e)]: the elements that are false are
    skipped, the first one that fails [cond] ends the iteration, and an
    exception raised by [cond] before that is the result. *)
Fixpoint all_truthy (cond : pyval → option bool) (es : list pyval) : option bool :=
  match es with
  | [] => Some true
  | e :: es' =>
      if truthy e then
        c ← cond e; if c : bool then all_truthy cond es' else Some false
      else all_truthy cond es'
  end.

Module QuadrupleGoddessSystem.

(** [''.join(['1' if x == 1 else '0' for x in lines])] *)
Definition join_bits (lines : list Z) : string :=
  String.concat "" ((λ x, if x =? 1 then "1"%string else "0"%string) <$> lines).

(** One round of the loop deriving the secondary hexagram. *)
Definition flip_line (secondary_lines : list Z) (line_num : Z) : list Z :=
  let idx := 6 - line_num in
  if decide (0 ≤ idx < Z.of_nat (length secondary_lines)) then
    match secondary_lines !! Z.to_nat idx with
    | Some x => <[Z.to_nat idx := if x =? 0 then 1 else 0]> secondary_lines
    | None => secondary_lines
    end
  else secondary_lines.

(** [secondary_lines] after the loop over [changing_lines]. *)
Definition flip_changing (hexagram_lines changing_lines : list Z) : list Z :=
  foldl flip_line hexagram_lines changing_lines.

(** Default records of the two hexagram look-ups. *)
Definition unknown_primary : gmap string pyval :=
  list_to_map
    [ ("number", PyInt 0); ("english", PyStr "Unknown"); ("chinese", PyStr "?");
      ("judgment_english", PyStr "No data available.");
      ("element", PyStr "Unknown"); ("planet", PyStr "Moon") ]%string.

Definition unknown_secondary : gmap string pyval :=
  list_to_map
    [ ("english", PyStr "Unknown Secondary");
      ("judgment_english", PyStr "No data available.") ]%string.

Section Casting.

(** [self.iching_hexagrams], loaded from a data file when the system is
    built. *)
Variable iching_hexagrams : gmap string (gmap string (gmap string pyval)).

(** [self.iching_hexagrams.get("hexagrams", {}).get(key, dflt)] *)
Definition lookup_hexagram (key : string) (dflt : gmap string pyval)
    : gmap string pyval :=
  default dflt (default ∅ (iching_hexagrams !! "hexagrams"%string) !! key).

(** The casting step chosen by [method]. *)
Definition cast_by_method (method : string) : Rand (list Z * list Z) :=
  if decide (method = "coins"%string) then IChingCaster.cast_coins
  else if decide (method = "yarrow"%string) then IChingCaster.cast_yarrow_stalks
  else
    hexagram_lines ← comprehension 6 (random_randint 0 1);
    mret (hexagram_lines, []).

(** The extension of a short line list. *)
Definition pad_lines (hexagram_lines : list Z) : Rand (list Z) :=
  if decide (length hexagram_lines < 6)%nat then
    extra ← comprehension (6 - length hexagram_lines) (random_randint 0 1);
    mret (hexagram_lines ++ extra)
  else mret hexagram_lines.

Definition cast_iching_traditional (method : string) : Rand iching_result :=
  '(hexagram_lines, changing_lines) ← cast_by_method method;
  hexagram_lines ← pad_lines hexagram_lines;
  let hexagram_binary := join_bits hexagram_lines in
  let '(lower_trigram, upper_trigram) :=
    IChingCaster.get_trigram_symbols hexagram_binary in
  let hexagram_data := lookup_hexagram hexagram_binary unknown_primary in
  match changing_lines with
  | [] =>
      mret {| binary := hexagram_binary;
              lines := hexagram_lines;
              changing_lines := changing_lines;
              primary := hexagram_data;
              trigram_symbols := (lower_trigram, upper_trigram);
              secondary := None;
              secondary_trigram_symbols := None |}
  | _ =>
      let secondary_lines := flip_changing hexagram_lines changing_lines in
      let secondary_binary := join_bits secondary_lines in
      let '(secondary_lower, secondary_upper) :=
        IChingCaster.get_trigram_symbols secondary_binary in
      let secondary_data := lookup_hexagram secondary_binary unknown_secondary in
      mret {| binary := hexagram_binary;
              lines := hexagram_lines;
              changing_lines := changing_lines;
              primary := hexagram_data;
              trigram_symbols := (lower_trigram, upper_trigram);
              secondary := Some secondary_data;
              secondary_trigram_symbols := Some (secondary_lower, secondary_upper) |}
  end.

End Casting.

(** [[[0] * size for _ in range(size)]] *)
Definition blank_square (size : Z) : list (list Z) :=
  replicate (Z.to_nat size) (replicate (Z.to_nat size) 0).

(** [square[i][j] = num] *)
Definition set_cell (square : list (list Z)) (i j num : Z) : option (list (list Z)) :=
  row ← getitem square i;
  row' ← setitem row j num;
  setitem square i row'.

(** [square[i][j]] *)
Definition get_cell (square : list (list Z)) (i j : Z) : option Z :=
  row ← getitem square i; getitem row j.

(** Body of the loop of the Siamese branch, on [(square, i, j)]. *)
Definition siamese_body (size num : Z) (st : list (list Z) * Z * Z)
    : option (list (list Z) * Z * Z) :=
  let '(square, i, j) := st in
  square ← set_cell square i j num;
  let new_i := (i - 1) %% size in
  let new_j := (j + 1) %% size in
  cell ← get_cell square new_i new_j;
  if bool_decide (cell ≠ 0) then Some (square, (i + 1) %% size, j)
  else Some (square, new_i, new_j).

(** Body of the inner loop of the even branch, on [(square, num)]. *)
Definition fill_body (i j : Z) (st : list (list Z) * Z) : option (list (list Z) * Z) :=
  let '(square, num) := st in
  square ← set_cell square i j num;
  Some (square, num + 1).

(** [generate_custom_square(size)]; [None] when an exception is raised. *)
Definition generate_custom_square (size : Z) : option (list (list Z)) :=
  let square := blank_square size in
  if size %% 2 =? 1 then
    '(square, _, _) ← for_each_opt (range_from 1 (size * size + 1))
                        (siamese_body size) (square, 0, size `div` 2);
    Some square
  else
    '(square, _) ← for_each_opt (range (Z.to_nat size))
                     (λ i, for_each_opt (range (Z.to_nat size)) (fill_body i))
                     (square, 1);
    Some square.

(** [get_magic_square_for_geomantic(geomantic)] *)
Definition get_magic_square_for_geomantic (geomantic : gmap string pyval)
    : list (list Z) :=
  let planet_name := dict_get geomantic "planet" (PyStr "Moon") in
  if decide (planet_name = PyStr "Saturn") then
    MagicSquareGenerator.generate_saturn_square ()
  else if decide (planet_name = PyStr "Jupiter") then
    MagicSquareGenerator.generate_jupiter_square ()
  else if decide (planet_name = PyStr "Mars") then
    MagicSquareGenerator.generate_mars_square ()
  else if decide (planet_name = PyStr "Sun") then
    MagicSquareGenerator.generate_sun_square ()
  else if decide (planet_name = PyStr "Venus") then
    MagicSquareGenerator.generate_venus_square ()
  else if decide (planet_name = PyStr "Mercury") then
    MagicSquareGenerator.generate_mercury_square ()
  else if decide (planet_name = PyStr "Moon") then
    MagicSquareGenerator.generate_moon_square ()
  else MagicSquareGenerator.generate_saturn_square ().

(** The dictionary [planet_map] of [get_optimal_planet]. *)
Definition planet_map : gmap string string :=
  list_to_map
    [ ("Moon", "Moon"); ("Sun", "Sun"); ("Mercury", "Mercury");
      ("Venus", "Venus"); ("Mars", "Mars"); ("Jupiter", "Jupiter");
      ("Saturn", "Saturn") ].

(** [get_optimal_planet(geomantic)] *)
Definition get_optimal_planet (geomantic : gmap string pyval) : string :=
  str_dict_get planet_map (dict_get geomantic "planet" (PyStr "Moon")) "Moon".

(** The line feed. *)
Definition newline : string := String "010"%char EmptyString.

(** [self.geomancy_figures.get("figures", {}).get(key)] *)
Definition lookup_figure
    (geomancy_figures : gmap string (gmap string (gmap string pyval)))
    (key : string) : option (gmap string pyval) :=
  default ∅ (geomancy_figures !! "figures") !! key.

(** [display_geomantic_figure(binary_str)] *)
Definition display_geomantic_figure
    (geomancy_figures : gmap string (gmap string (gmap string pyval)))
    (binary_str : string) : string :=
  let lines :=
    (λ bit : ascii, if decide (bit = "1"%char) then "●●" else "○ ○")
      <$> String.list_ascii_of_string binary_str in
  let display := String.concat newline lines in
  let figure := default ∅ (lookup_figure geomancy_figures binary_str) in
  let name := dict_get figure "name" (PyStr "Unknown") in
  py_str name +:+ ":" +:+ newline +:+ display.

(** The record used for a key that the table does not have. *)
Definition unknown_figure (binary_str : string) : gmap string pyval :=
  list_to_map
    [ ("name", PyStr "Unknown"); ("binary", PyStr binary_str);
      ("meaning", PyStr "No meaning available."); ("planet", PyStr "Moon");
      ("element", PyStr "Water"); ("astrological", PyStr "Unknown") ].

(** [generate_geomantic_figure()], on the table [self.geomancy_figures]:
    the figure returned, and the table after the call.  A record found in
    the table is the object the table holds, so the assignment of its
    "display" is an assignment in the table. *)
Definition generate_geomantic_figure
    (geomancy_figures : gmap string (gmap string (gmap string pyval)))
    : Rand (gmap string pyval
            * gmap string (gmap string (gmap string pyval))) :=
  bits ← comprehension 4 (x ← random_randint 0 1; mret (py_str_int x));
  let binary_str := String.concat "" bits in
  let display := PyStr (display_geomantic_figure geomancy_figures binary_str) in
  match lookup_figure geomancy_figures binary_str with
  | Some figure =>
      let figure := <["display" := display]> figure in
      mret (figure,
            <["figures" :=
                <[binary_str := figure]>
                  (default ∅ (geomancy_figures !! "figures"))]>
              geomancy_figures)
  | None =>
      mret (<["display" := display]> (unknown_figure binary_str),
            geomancy_figures)
  end.

(** [binary_to_geomantic(binary_str)] *)
Definition binary_to_geomantic
    (geomancy_figures : gmap string (gmap string (gmap string pyval)))
    (binary_str : string) : pyval :=
  dict_get (default ∅ (lookup_figure geomancy_figures binary_str)) "name"
    (PyStr "Unknown").

End QuadrupleGoddessSystem.

(** ** Planetary hours *)

(** The constant [PLANETARY_HOURS] (the Chaldean order). *)
Definition PLANETARY_HOURS : list string :=
  ["Saturn"; "Jupiter"; "Mars"; "Sun"; "Venus"; "Mercury"; "Moon"].

(** [l.index(x)]: the position of the first occurrence; [None] stands for
    the [ValueError] raised when there is none. *)
Fixpoint list_index {A : Type} `{EqDecision A} (x : A) (l : list A) : option Z :=
  match l with
  | [] => None
  | y :: l' => if decide (x = y) then Some 0 else Z.succ <$> list_index x l'
  end.

Module PlanetaryHourCalculator.

(** An entry of the schedule: a dictionary with the keys "hour", "planet"
    and "type". *)
Record hour_entry := {
  hour : Z;
  planet : string;
  type : string
}.

#[global] Instance hour_entry_eq_dec : EqDecision hour_entry.
Proof. solve_decision. Defined.

(** The local list [day_planets], indexed by [weekday()] (Monday is 0). *)
Definition day_planets : list string :=
  ["Sun"; "Moon"; "Mars"; "Mercury"; "Jupiter"; "Venus"; "Saturn"].

(** Body of the two loops of [get_planetary_hour_schedule]; [offset] is 0
    in the loop of the day hours and 12 in the loop of the night hours. *)
Definition schedule_body (start_index offset : Z) (kind : string) (i : Z)
    (schedule : list hour_entry) : option (list hour_entry) :=
  let planet_index := (start_index + offset + i) %% 7 in
  planet ← getitem PLANETARY_HOURS planet_index;
  Some (schedule ++ [{| hour := i + 1; planet := planet; type := kind |}]).

(** [get_planetary_hour_schedule(date)]; the function reads its argument
    only through [date.weekday()], which is the parameter here (the weekday
    of the current time when [date] is [None]). *)
Definition get_planetary_hour_schedule (weekday : Z) : option (list hour_entry) :=
  day_ruler ← getitem day_planets weekday;
  start_index ← list_index day_ruler PLANETARY_HOURS;
  schedule ← for_each_opt (range 12) (schedule_body start_index 0 "day") [];
  for_each_opt (range 12) (schedule_body start_index 12 "night") schedule.

(** The comprehension of [display_optimal_timing]:
    [[h for h in schedule if h['planet'] == planet]]. *)
Definition optimal_hours (schedule : list hour_entry) (planet_name : string)
    : list hour_entry :=
  filter (λ h, planet h = planet_name) schedule.

End PlanetaryHourCalculator.

(** ** HermeticSynthesis *)

Module HermeticSynthesis.

(** The dictionary [ogdoad_map] of [get_ogdoad_correspondence]. *)
Definition ogdoad_map : gmap string string :=
  list_to_map
    [ ("☰", "Heaven (Nu/Naunet - Primordial Waters)");
      ("☷", "Earth (Amun/Amaunet - Hidden Force)");
      ("☲", "Fire (Heh/Hauhet - Infinity)");
      ("☵", "Water (Kuk/Kauket - Darkness)");
      ("☳", "Thunder (Niau/Niaut)");
      ("☴", "Wind (etc.)");
      ("☶", "Mountain");
      ("☱", "Lake") ].

Definition get_ogdoad_correspondence (trigram_symbol : string) : string :=
  default "Unified principle" (ogdoad_map !! trigram_symbol).

(** The dictionary [essences] of [get_trigram_essence]. *)
Definition essences : gmap string string :=
  list_to_map
    [ ("☰", "Creative force"); ("☷", "Receptive ground");
      ("☲", "Illuminating fire"); ("☵", "Deep water");
      ("☳", "Awakening thunder"); ("☴", "Penetrating wind");
      ("☶", "Stable mountain"); ("☱", "Joyful lake") ].

Definition get_trigram_essence (trigram : string) : string :=
  default "Unknown trigram" (essences !! trigram).

(** The dictionary [trigram_interactions], keyed by (lower, upper). *)
Definition trigram_interactions : gmap (string * string) string :=
  list_to_map
    [ (("☰", "☰"), "Heaven upon Heaven: Pure creative force, ultimate power");
      (("☰", "☷"),
       "Heaven upon Earth: Creative manifestation, ideal meeting reality");
      (("☷", "☰"), "Earth upon Heaven: Receptive to divine inspiration");
      (("☲", "☵"),
       "Fire upon Water: Passion meeting emotion, transformative alchemy");
      (("☵", "☲"),
       "Water upon Fire: Emotion tempering passion, controlled transformation") ].

Definition analyze_trigram_combination (lower_trigram upper_trigram : string)
    : string :=
  let key := (lower_trigram, upper_trigram) in
  match trigram_interactions !! key with
  | Some text => text
  | None =>
      let lower_name := get_trigram_essence lower_trigram in
      let upper_name := get_trigram_essence upper_trigram in
      lower_name +:+ " (foundation) supporting " +:+ upper_name +:+ " (expression)"
  end.

(** The dictionary [meanings] of [reduce_number]. *)
Definition meanings : gmap Z string :=
  list_to_map
    [ (1, "Unity, Beginning"); (2, "Duality, Balance");
      (3, "Creativity, Trinity"); (4, "Stability, Foundation");
      (5, "Change, Movement"); (6, "Harmony, Balance");
      (7, "Wisdom, Mystery"); (8, "Power, Manifestation");
      (9, "Completion, Wisdom") ].




(** [sum(1 for e in elements if name in str(e))], over the keys of the
    dictionary. *)
Definition element_count (name : string) (elements : list (pyval * Z)) : Z :=
  sum ((λ _, 1) <$> filter (λ e, contains name (py_str e)) elements.*1).

(** The dictionary [rhythms] of [calculate_optimal_rhythm]. *)
Definition rhythms : gmap string string :=
  list_to_map
    [ ("Fire", "Quick, decisive actions in 3-day cycles");
      ("Water", "Fluid, intuitive timing - follow emotional cues");
      ("Air", "Mental focus in morning, communication in afternoon");
      ("Earth", "Slow, steady progress with weekly checkpoints") ].

(** [calculate_optimal_rhythm(geomantic, iching, tarot)] *)
Definition calculate_optimal_rhythm (geomantic : gmap string pyval)
    (iching : iching_result) (tarot : gmap string pyval) : option string :=
  let elements :=
    dict_display
      [ (dict_get geomantic "element" (PyStr ""), 3);
        (dict_get (primary iching) "element" (PyStr ""), 2);
        (dict_get tarot "element" (PyStr ""), 1) ] in
  let fire_count := element_count "Fire" elements in
  let water_count := element_count "Water" elements in
  let air_count := element_count "Air" elements in
  let earth_count := element_count "Earth" elements in
  let counts : list (string * Z) :=
    dict_display
      [ ("Fire", fire_count); ("Water", water_count); ("Air", air_count);
        ("Earth", earth_count) ] in
  dominant ← py_max (λ k, default 0 (assoc_get counts k)) counts.*1;
  Some (default "Follow natural cycles and planetary timing"
          (rhythms !! dominant)).

(** [name in e or e == name]; a number is not iterable. *)
Definition mentions (name : string) (e : pyval) : option bool :=
  match e with
  | PyStr s => Some (contains name s || bool_decide (s = name))
  | PyInt _ => None
  end.

(** [get_ogdoad_aspect(geomantic, iching, tarot)]; [None] when a
    [TypeError] is raised. *)
Definition get_ogdoad_aspect (geomantic : gmap string pyval)
    (iching : iching_result) (tarot : gmap string pyval) : option string :=
  let elements :=
    [ dict_get geomantic "element" (PyStr "");
      dict_get (primary iching) "element" (PyStr "");
      dict_get tarot "element" (PyStr "") ] in
  fire ← all_truthy (mentions "Fire") elements;
  if fire : bool then Some "Creative fire principle"
  else
    water ← all_truthy (mentions "Water") elements;
    if water : bool then Some "Receptive water principle"
    else
      air ← all_truthy (mentions "Air") elements;
      if air : bool then Some "Mediating air principle"
      else
        earth ← all_truthy (mentions "Earth") elements;
        if earth : bool then Some "Manifesting earth principle"
        else Some "Unified manifestation principle".

End HermeticSynthesis.

(** ** InterpretationDepthSystem *)

Module InterpretationDepthSystem.


Section Numbers.

(** [int(s, 2)] of the Python library; [None] stands for the exception
    raised on a string that is not a numeral in base 2. *)
Variable int_base2 : string → option Z.

(** [binary_to_decimal(binary_str)]: the exception is swallowed. *)
Definition binary_to_decimal (binary_str : string) : Z :=
  default 0 (int_base2 binary_str).




(** The dictionary [archetypes] of [get_numerical_archetype]. *)
Definition archetypes : gmap Z string :=
  list_to_map
    [ (0, "The Void - Infinite potential");
      (1, "The Magician - Conscious creation");
      (2, "The High Priestess - Intuitive wisdom");
      (3, "The Empress - Creative abundance");
      (4, "The Emperor - Structural authority");
      (5, "The Hierophant - Traditional wisdom");
      (6, "The Lovers - Harmonious choice");
      (7, "The Chariot - Directed will");
      (8, "Strength - Courageous mastery");
      (9, "The Hermit - Inner wisdom");
      (10, "Wheel of Fortune - Cyclical change");
      (11, "Justice - Balance and truth");
      (12, "The Hanged Man - Sacrificial wisdom");
      (13, "Death - Transformational ending");
      (14, "Temperance - Alchemical blending");
      (15, "The Devil - Material bondage") ].

(** [get_numerical_archetype(binary_str)] *)
Definition get_numerical_archetype (binary_str : string) : string :=
  default "Unique numerical signature"
    (archetypes !! binary_to_decimal binary_str).

End Numbers.

End InterpretationDepthSystem.

(** * Vocabulary of the properties *)

(** ** Runs of the random source *)

(** The source after [n] further draws. *)
Definition advance (n : nat) (s : RandomSource) : RandomSource :=
  {| tape := tape s; pos := (pos s + n)%nat |}.

(** The [k]-th coming call of [random.random()] returns more than 0.5. *)
Definition heads_at (s : RandomSource) (k : nat) : Prop :=
  (1 # 2 < Qmake (tape s (pos s + k)%nat `mod` 2 ^ 53) (2 ^ 53))%Q.

(** A source on which every call of [random.random()] returns
    [(2^53 - 1) / 2^53]. *)
Definition all_heads : RandomSource := {| tape := λ _, 2 ^ 53 - 1; pos := 0 |}.

(** ** Lines of the coin method *)

(** What one line contributes, by its total. *)
Definition line_of_total (t : Z) : Z := if (t =? 7) || (t =? 9) then 1 else 0.
Definition changing_total (t : Z) : bool := (t =? 6) || (t =? 9).
Definition changing_entry (p : Z * Z) : option Z :=
  if changing_total p.2 then Some (p.1 + 1) else None.

(** ** Binary keys and bits *)

(** A binary key: six characters, each '0' or '1'. *)
Definition is_binary_key (s : string) : Prop :=
  String.length s = 6%nat ∧
  Forall (λ c, c = "0"%char ∨ c = "1"%char) (String.list_ascii_of_string s).

(** [1 if x == 0 else 0] *)
Definition flip_bit (x : Z) : Z := if x =? 0 then 1 else 0.

(** ** Magic squares *)

(** Column [j], the main diagonal and the anti-diagonal of a square. *)
Definition column (j : nat) (square : list (list Z)) : list Z :=
  (λ row, default 0 (row !! j)) <$> square.
Definition main_diagonal (square : list (list Z)) : list Z :=
  imap (λ i row, default 0 (row !! i)) square.
Definition anti_diagonal (square : list (list Z)) : list Z :=
  imap (λ i row, default 0 (row !! (length square - 1 - i)%nat)) square.

(** An [n] by [n] matrix holding each of [1 .. n*n] exactly once, all of
    whose rows, columns and two main diagonals sum to the magic constant. *)
Record is_magic (n : nat) (square : list (list Z)) : Prop := {
  magic_height : length square = n;
  magic_width : Forall (λ row, length row = n) square;
  magic_entries : concat square ≡ₚ range_from 1 (Z.of_nat n * Z.of_nat n + 1);
  magic_rows :
    Forall (λ row, sum row = MagicSquareGenerator.magic_constant (Z.of_nat n))
      square;
  magic_columns :
    ∀ j, (j < n)%nat →
      sum (column j square) = MagicSquareGenerator.magic_constant (Z.of_nat n);
  magic_main :
    sum (main_diagonal square) = MagicSquareGenerator.magic_constant (Z.of_nat n);
  magic_anti :
    sum (anti_diagonal square) = MagicSquareGenerator.magic_constant (Z.of_nat n)
}.

(** The same conditions in a form that can be decided by evaluation. *)
Definition magic_check (n : nat) (square : list (list Z)) : Prop :=
  let constant := MagicSquareGenerator.magic_constant (Z.of_nat n) in
  length square = n ∧
  Forall (λ row, length row = n) square ∧
  NoDup (concat square) ∧
  Forall (λ v, 1 ≤ v ≤ Z.of_nat n * Z.of_nat n) (concat square) ∧
  Forall (λ row, sum row = constant) square ∧
  Forall (λ j, sum (column j square) = constant) (seq 0 n) ∧
  sum (main_diagonal square) = constant ∧
  sum (anti_diagonal square) = constant.

#[global] Instance magic_check_dec n square : Decision (magic_check n square).
Proof. unfold magic_check. cbv zeta. apply _. Defined.

(** The planet names the lookup recognises. *)
Definition planet_names : list string :=
  ["Saturn"; "Jupiter"; "Mars"; "Sun"; "Venus"; "Mercury"; "Moon"].

(** ** The Siamese construction in closed form *)

(** A matrix of [n] rows of [n] cells. *)
Definition square_shape (n : nat) (square : list (list Z)) : Prop :=
  length square = n ∧ Forall (λ row, length row = n) square.

(** Closed form of the square the construction builds, for order [N]:
    the number [a * N + b + 1] (block [a], offset [b]) lies on the broken
    anti-diagonal [r + c = a + N/2 (mod N)], in row [2a - b (mod N)]. *)
Definition block (N r c : Z) : Z := (r + c - N `div` 2) `mod` N.
Definition offset (N r c : Z) : Z := (2 * block N r c - r) `mod` N.
Definition entry (N r c : Z) : Z := block N r c * N + offset N r c + 1.
Definition row_of (N k : Z) : Z := (2 * (k `div` N) - k `mod` N) `mod` N.
Definition col_of (N k : Z) : Z := (N `div` 2 - k `div` N + k `mod` N) `mod` N.

(** The square, row by row. *)
Definition closed_form_square (N : Z) : list (list Z) :=
  (λ r, (λ c, entry N r c) <$> seqZ 0 N) <$> seqZ 0 N.

(** State of the loop once the numbers [1 .. k] are placed. *)
Definition siamese_inv (N k : Z) (st : list (list Z) * Z * Z) : Prop :=
  let '(square, i, j) := st in
  square_shape (Z.to_nat N) square ∧
  (∀ r c, 0 ≤ r < N → 0 ≤ c < N →
     QuadrupleGoddessSystem.get_cell square r c =
       Some (if decide (entry N r c ≤ k) then entry N r c else 0)) ∧
  i = row_of N k ∧ j = col_of N k.

(** ** Planetary hours *)

(** The planet that follows in [PLANETARY_HOURS], cyclically. *)
Definition chaldean_next (planet_name : string) : option string :=
  i ← list_index planet_name PLANETARY_HOURS;
  PLANETARY_HOURS !! Z.to_nat ((i + 1) `mod` 7).

(** ** The fixed squares *)

(** The seven fixed squares with their orders. *)
Definition fixed_squares : list (nat * list (list Z)) :=
  [ (3%nat, MagicSquareGenerator.generate_saturn_square ());
    (4%nat, MagicSquareGenerator.generate_jupiter_square ());
    (5%nat, MagicSquareGenerator.generate_mars_square ());
    (6%nat, MagicSquareGenerator.generate_sun_square ());
    (7%nat, MagicSquareGenerator.generate_venus_square ());
    (8%nat, MagicSquareGenerator.generate_mercury_square ());
    (9%nat, MagicSquareGenerator.generate_moon_square ()) ].



(** The square that holds [1 .. N*N] in reading order. *)
Definition row_major_square (N : Z) : list (list Z) :=
  (λ r, (λ c, r * N + c + 1) <$> seqZ 0 N) <$> seqZ 0 N.

(** State of the loops of the even branch once [k] cells are filled. *)
Definition fill_inv (n : nat) (k : Z) (st : list (list Z) * Z) : Prop :=
  let '(square, num) := st in
  square_shape n square ∧
  (∀ r c, 0 ≤ r < Z.of_nat n → 0 ≤ c < Z.of_nat n →
     QuadrupleGoddessSystem.get_cell square r c =
       Some (if decide (r * Z.of_nat n + c < k) then r * Z.of_nat n + c + 1
             else 0)) ∧
  num = k + 1.

(** The elements that the three parts of a reading contribute. *)
Definition reading_elements (geomantic : gmap string pyval)
    (iching : iching_result) (tarot : gmap string pyval) : list pyval :=
  [ dict_get geomantic "element" (PyStr "");
    dict_get (primary iching) "element" (PyStr "");
    dict_get tarot "element" (PyStr "") ].

Definition is_str (v : pyval) : Prop := ∃ s, v = PyStr s.

(** The key that [max] picks among "Fire", "Water", "Air" and "Earth",
    from their four counts: the first of the greatest. *)
Definition first_greatest (fire water air earth : Z) : string :=
  if fire <? water then
    if water <? air then (if air <? earth then "Earth" else "Air")
    else (if water <? earth then "Earth" else "Water")
  else
    if fire <? air then (if air <? earth then "Earth" else "Air")
    else (if fire <? earth then "Earth" else "Fire").

(** Whether every element that is not empty mentions [name]. *)
Definition all_mention (name : string) (es : list pyval) : bool :=
  forallb (λ e, negb (truthy e) || contains name (py_str e)) es.

(** The key that [generate_geomantic_figure] draws from a source. *)
Definition drawn_key (s : RandomSource) : string :=
  String.concat ""
    (comprehension 4 (x ← random_randint 0 1; mret (py_str_int x)) s).1.

(** The default table of figures of [load_default_data]. *)
Definition default_figures : gmap string (gmap string (gmap string pyval)) :=
  {[ "figures" :=
       {[ "1111" :=
            list_to_map
              [ ("name", PyStr "Via"); ("binary", PyStr "1111");
                ("meaning", PyStr "The Way"); ("planet", PyStr "Moon");
                ("element", PyStr "Water") ];
          "0000" :=
            list_to_map
              [ ("name", PyStr "Caput Draconis"); ("binary", PyStr "0000");
                ("meaning", PyStr "Head of Dragon");
                ("planet", PyStr "Jupiter"); ("element", PyStr "Earth") ] ]} ]}.

(** ** Numerals in base 2 *)

(** The number that a string of binary digits denotes. *)
Definition binary_value (s : string) : Z :=
  foldl (λ acc (c : ascii), 2 * acc + (if decide (c = "1"%char) then 1 else 0))
    0 (String.list_ascii_of_string s).

(** A string of one or more characters "0" and "1". *)
Definition is_bit_string (s : string) : Prop :=
  s ≠ "" ∧
  Forall (λ c, c = "0"%char ∨ c = "1"%char) (String.list_ascii_of_string s).

#[global] Instance is_bit_string_dec s : Decision (is_bit_string s).
Proof. unfold is_bit_string. apply _. Defined.

(** What is used of [int(s, 2)]: a string of binary digits is read as the
    number it denotes.  Nothing is said of the other strings, some of
    which Python accepts as well. *)
Definition reads_base2 (int_base2 : string → option Z) : Prop :=
  ∀ s, is_bit_string s → int_base2 s = Some (binary_value s).

(** A reader that accepts the strings of binary digits and no other. *)
Definition bits_only (s : string) : option Z :=
  if decide (is_bit_string s) then Some (binary_value s) else None.

(** * Properties *)

(** ** Runs of the random source *)

Lemma advance_0 s : advance 0 s = s.
Proof. destruct s as [t p]. unfold advance; simpl. by rewrite Nat.add_0_r. Qed.

Lemma advance_advance n m s : advance n (advance m s) = advance (m + n) s.
Proof. unfold advance; simpl. by rewrite Nat.add_assoc. Qed.

(** ** The coin method *)

Module CoinFacts.
Import IChingCaster.

Lemma coin_cases s : (coin s).1 = 2 ∨ (coin s).1 = 3.
Proof.
  unfold coin, random_random, mbind, rand_bind, mret, rand_ret, next_raw; simpl.
  destruct (Qlt_le_dec _ _); auto.
Qed.

Lemma coin_source s : (coin s).2 = advance 1 s.
Proof.
  unfold coin, random_random, mbind, rand_bind, mret, rand_ret; simpl.
  unfold advance; simpl. by rewrite Nat.add_1_r.
Qed.

Lemma coin_heads s : heads_at s 0 → coin s = (3, advance 1 s).
Proof.
  intros H. rewrite <- coin_source.
  unfold coin, random_random, mbind, rand_bind, mret, rand_ret, next_raw; simpl.
  unfold heads_at in H. rewrite Nat.add_0_r in H.
  destruct (Qlt_le_dec _ _) as [_|Hle]; [done|].
  exfalso. apply (Qlt_not_le _ _ H Hle).
Qed.

Lemma coin_eq s : coin s = ((coin s).1, advance 1 s).
Proof. rewrite <- coin_source. by destruct (coin s). Qed.

Lemma coin_total_eq s :
  coin_total s =
    ((coin s).1 + (coin (advance 1 s)).1 + (coin (advance 2 s)).1, advance 3 s).
Proof.
  unfold coin_total, comprehension, mbind, rand_bind, mret, rand_ret.
  rewrite (coin_eq s), (coin_eq (advance 1 s)), advance_advance.
  rewrite (coin_eq (advance (1 + 1) s)), advance_advance.
  reflexivity.
Qed.

Lemma coin_total_range s : 6 ≤ (coin_total s).1 ≤ 9.
Proof.
  rewrite coin_total_eq; cbn [fst].
  destruct (coin_cases s), (coin_cases (advance 1 s)), (coin_cases (advance 2 s)); lia.
Qed.


Lemma coins_record_valid n t h c :
  6 ≤ t ≤ 9 →
  coins_record n t (h, c) =
    (h ++ [line_of_total t], c ++ from_option (λ x, [x]) [] (changing_entry (n, t))).
Proof.
  intros Ht. unfold coins_record, line_of_total, changing_entry, changing_total.
  cbn [fst snd].
  assert (t = 6 ∨ t = 7 ∨ t = 8 ∨ t = 9) as [->|[->|[->| ->]]] by lia;
    simpl; by rewrite ?app_nil_r.
Qed.

Lemma comprehension_length {A} n (e : Rand A) s :
  length (comprehension n e s).1 = n.
Proof.
  revert s; induction n as [|n IH]; intros s; [done|].
  cbn [comprehension]. unfold mbind, rand_bind, mret, rand_ret.
  destruct (e s) as [x s1]. specialize (IH s1).
  destruct (comprehension n e s1) as [xs s2]. simpl in *. by rewrite IH.
Qed.

Lemma comprehension_Forall {A} (P : A → Prop) n (e : Rand A) s :
  (∀ s', P (e s').1) → Forall P (comprehension n e s).1.
Proof.
  intros He. revert s; induction n as [|n IH]; intros s; [by constructor|].
  cbn [comprehension]. unfold mbind, rand_bind, mret, rand_ret.
  pose proof (He s) as Hx. destruct (e s) as [x s1]. specialize (IH s1).
  destruct (comprehension n e s1) as [xs s2]. simpl in *. by constructor.
Qed.

Lemma for_each_coins xs h c s :
  for_each xs coins_body (h, c) s =
    let '(totals, s') := comprehension (length xs) coin_total s in
    ((h ++ (line_of_total <$> totals),
      c ++ omap changing_entry (zip xs totals)), s').
Proof.
  revert h c s; induction xs as [|x xs IH]; intros h c s.
  { simpl. unfold mret, rand_ret. by rewrite !app_nil_r. }
  cbn [for_each length comprehension]. unfold mbind, rand_bind, mret, rand_ret.
  unfold coins_body at 1. unfold mbind, rand_bind, mret, rand_ret.
  pose proof (coin_total_range s) as Ht.
  destruct (coin_total s) as [t s1]. cbn [fst] in Ht.
  rewrite coins_record_valid by done. rewrite IH.
  destruct (comprehension (length xs) coin_total s1) as [ts s2].
  cbn [fmap list_fmap zip zip_with omap list_omap].
  rewrite <- !app_assoc. simpl.
  destruct (changing_entry (x, t)); reflexivity.
Qed.

Lemma changing_sublist (xs totals : list Z) :
  omap changing_entry (zip xs totals) `sublist_of` ((λ n, n + 1) <$> xs).
Proof.
  revert totals. induction xs as [|x xs IH]; intros [|t totals];
    cbn [zip zip_with omap list_omap fmap list_fmap];
    [done|done|apply sublist_nil_l|].
  unfold changing_entry at 1. cbn [fst snd].
  destruct (changing_total t); [apply sublist_skip|apply sublist_cons]; apply IH.
Qed.

End CoinFacts.

Module CoinClaims.
Import IChingCaster CoinFacts.

Lemma range_lookup n (i : nat) : (i < n)%nat → range n !! i = Some (Z.of_nat i).
Proof.
  intros Hi. unfold range. rewrite list_lookup_fmap.
  by rewrite (proj2 (lookup_seq 0 n i i)).
Qed.

Lemma range_lookup_Some n (i : nat) x : range n !! i = Some x → x = Z.of_nat i ∧ (i < n)%nat.
Proof.
  unfold range. rewrite list_lookup_fmap.
  destruct (seq 0 n !! i) as [j|] eqn:E; [|done].
  apply lookup_seq in E as [-> ?]. simpl. intros [= <-]. done.
Qed.

Lemma cast_coins_run s :
  cast_coins s =
    let '(totals, s') := comprehension 6 coin_total s in
    ((reverse (line_of_total <$> totals),
      omap changing_entry (zip (range 6) totals)), s').
Proof.
  unfold cast_coins, mbind, rand_bind, mret, rand_ret.
  rewrite for_each_coins. change (length (range 6)) with 6%nat.
  by destruct (comprehension 6 coin_total s) as [totals s'].
Qed.

Lemma cast_coins_eq s :
  (cast_coins s).1 =
    let totals := (comprehension 6 coin_total s).1 in
    (reverse (line_of_total <$> totals),
     omap changing_entry (zip (range 6) totals)).
Proof.
  rewrite cast_coins_run.
  by destruct (comprehension 6 coin_total s) as [totals s'].
Qed.

(** C4: in the coin method every line's three-coin total is 6, 7, 8 or 9;
    the line cast [k]-th (stored at index [5 - k] after the reversal) is yin
    and changing for 6, yang and stable for 7, yin and stable for 8, yang
    and changing for 9, changing meaning that [k + 1] is recorded. *)
Theorem cast_coins_total_rule (s : RandomSource) (k : nat) :
  (k < 6)%nat →
  ∃ t, (comprehension 6 coin_total s).1 !! k = Some t ∧
    let hexagram_lines := (cast_coins s).1.1 in
    let changing_lines := (cast_coins s).1.2 in
    (t = 6 ∧ hexagram_lines !! (5 - k)%nat = Some 0 ∧ Z.of_nat k + 1 ∈ changing_lines) ∨
    (t = 7 ∧ hexagram_lines !! (5 - k)%nat = Some 1 ∧ Z.of_nat k + 1 ∉ changing_lines) ∨
    (t = 8 ∧ hexagram_lines !! (5 - k)%nat = Some 0 ∧ Z.of_nat k + 1 ∉ changing_lines) ∨
    (t = 9 ∧ hexagram_lines !! (5 - k)%nat = Some 1 ∧ Z.of_nat k + 1 ∈ changing_lines).
Proof.
  intros Hk. rewrite cast_coins_eq. cbv zeta. cbn [fst snd].
  pose proof (comprehension_length 6 coin_total s) as Hlen.
  pose proof (comprehension_Forall (λ t, 6 ≤ t ≤ 9) 6 coin_total s coin_total_range) as Hall.
  set (totals := (comprehension 6 coin_total s).1) in *.
  destruct (lookup_lt_is_Some_2 totals k) as [t Ht]; [lia|].
  exists t. split; [done|].
  assert (Hline : reverse (line_of_total <$> totals) !! (5 - k)%nat = Some (line_of_total t)).
  { rewrite reverse_lookup by (rewrite length_fmap; lia).
    rewrite length_fmap, Hlen. replace (6 - S (5 - k))%nat with k by lia.
    by rewrite list_lookup_fmap, Ht. }
  assert (Hch : Z.of_nat k + 1 ∈ omap changing_entry (zip (range 6) totals)
                ↔ changing_total t = true).
  { rewrite list_elem_of_omap. split.
    - intros ([n t'] & Hin & Hsome).
      apply elem_of_lookup_zip_with in Hin as (i & n' & t'' & [= -> ->] & Hn & Ht').
      apply range_lookup_Some in Hn as [-> Hi].
      unfold changing_entry in Hsome; cbn [fst snd] in Hsome.
      destruct (changing_total t'') eqn:E; [|done].
      injection Hsome as Hsome. assert (i = k) as -> by lia. congruence.
    - intros E. exists (Z.of_nat k, t). split.
      + apply elem_of_lookup_zip_with. exists k, (Z.of_nat k), t.
        split_and!; [done|by apply range_lookup|done].
      + unfold changing_entry; cbn [fst snd]. by rewrite E. }
  rewrite Hline, Hch.
  pose proof (proj1 (Forall_lookup _ _) Hall k t Ht) as Hr. cbv beta in Hr.
  unfold line_of_total, changing_total.
  assert (t = 6 ∨ t = 7 ∨ t = 8 ∨ t = 9) as Hcase by lia.
  clear -Hcase. destruct Hcase as [E|[E|[E|E]]]; rewrite E; simpl; naive_solver.
Qed.


Lemma cast_coins_total_rule_witness :
  ∃ t, (comprehension 6 coin_total all_heads).1 !! 0%nat = Some t ∧
    let hexagram_lines := (cast_coins all_heads).1.1 in
    let changing_lines := (cast_coins all_heads).1.2 in
    (t = 6 ∧ hexagram_lines !! 5%nat = Some 0 ∧ 0 + 1 ∈ changing_lines) ∨
    (t = 7 ∧ hexagram_lines !! 5%nat = Some 1 ∧ 0 + 1 ∉ changing_lines) ∨
    (t = 8 ∧ hexagram_lines !! 5%nat = Some 0 ∧ 0 + 1 ∉ changing_lines) ∨
    (t = 9 ∧ hexagram_lines !! 5%nat = Some 1 ∧ 0 + 1 ∈ changing_lines).
Proof. apply (cast_coins_total_rule all_heads 0). lia. Defined.

End CoinClaims.

Module HeadsClaims.
Import IChingCaster QuadrupleGoddessSystem CoinFacts CoinClaims.

Lemma heads_at_advance n s k : heads_at (advance n s) k ↔ heads_at s (n + k).
Proof. unfold heads_at, advance; simpl. by rewrite Nat.add_assoc. Qed.

Lemma coin_total_heads s :
  (∀ k, (k < 3)%nat → heads_at s k) → coin_total s = (9, advance 3 s).
Proof.
  intros H. rewrite coin_total_eq.
  rewrite (coin_heads s) by (apply H; lia).
  rewrite (coin_heads (advance 1 s)) by (apply heads_at_advance, H; lia).
  rewrite (coin_heads (advance 2 s)) by (apply heads_at_advance, H; lia).
  reflexivity.
Qed.

Lemma coin_totals_heads n s :
  (∀ k, (k < 3 * n)%nat → heads_at s k) →
  comprehension n coin_total s = (replicate n 9, advance (3 * n) s).
Proof.
  revert s; induction n as [|n IH]; intros s H.
  { simpl. unfold mret, rand_ret. by rewrite advance_0. }
  cbn [comprehension]. unfold mbind, rand_bind, mret, rand_ret.
  rewrite coin_total_heads by (intros; apply H; lia).
  rewrite IH by (intros; apply heads_at_advance, H; lia).
  rewrite advance_advance. simpl replicate. do 2 f_equal. lia.
Qed.

(** C6: when the next 18 calls of [random.random()] all return more than
    0.5 (every coin is a 3), each of the six totals is 9, the coin method
    returns six yang lines, all changing, the primary key is "111111", and
    the secondary lines and key are all zero: the secondary record is the
    one looked up under "000000". *)
Theorem all_heads_casting (iching_hexagrams : gmap string (gmap string (gmap string pyval)))
    (s : RandomSource) :
  (∀ k, (k < 18)%nat → heads_at s k) →
  (comprehension 6 coin_total s).1 = [9; 9; 9; 9; 9; 9] ∧
  (cast_coins s).1 = ([1; 1; 1; 1; 1; 1], [1; 2; 3; 4; 5; 6]) ∧
  let r := (cast_iching_traditional iching_hexagrams "coins" s).1 in
  lines r = [1; 1; 1; 1; 1; 1] ∧
  changing_lines r = [1; 2; 3; 4; 5; 6] ∧
  binary r = "111111"%string ∧
  flip_changing (lines r) (changing_lines r) = [0; 0; 0; 0; 0; 0] ∧
  join_bits (flip_changing (lines r) (changing_lines r)) = "000000"%string ∧
  secondary r = Some (lookup_hexagram iching_hexagrams "000000" unknown_secondary) ∧
  secondary_trigram_symbols r = Some ("☷", "☷")%string.
Proof.
  intros H.
  pose proof (coin_totals_heads 6 s H) as Ht.
  assert (Hc : cast_coins s = (([1; 1; 1; 1; 1; 1], [1; 2; 3; 4; 5; 6]), advance 18 s)).
  { rewrite cast_coins_run, Ht. reflexivity. }
  split; [by rewrite Ht|]. split; [by rewrite Hc|].
  assert (Hr : (cast_iching_traditional iching_hexagrams "coins" s).1 =
    {| binary := "111111";
       lines := [1; 1; 1; 1; 1; 1];
       changing_lines := [1; 2; 3; 4; 5; 6];
       primary := lookup_hexagram iching_hexagrams "111111" unknown_primary;
       trigram_symbols := ("☰", "☰")%string;
       secondary := Some (lookup_hexagram iching_hexagrams "000000" unknown_secondary);
       secondary_trigram_symbols := Some ("☷", "☷")%string |}).
  { unfold cast_iching_traditional, cast_by_method.
    rewrite decide_True by done.
    unfold mbind, rand_bind. rewrite Hc.
    unfold pad_lines. rewrite decide_False by (simpl; lia).
    reflexivity. }
  cbv zeta. rewrite Hr. cbn [lines changing_lines binary secondary secondary_trigram_symbols].
  repeat split.
Qed.

Lemma all_heads_casting_witness :
  (cast_coins all_heads).1 = ([1; 1; 1; 1; 1; 1], [1; 2; 3; 4; 5; 6]) ∧
  binary (cast_iching_traditional ∅ "coins" all_heads).1 = "111111"%string ∧
  secondary_trigram_symbols (cast_iching_traditional ∅ "coins" all_heads).1
    = Some ("☷", "☷")%string.
Proof.
  destruct (all_heads_casting ∅ all_heads) as (_ & Hc & _ & _ & Hb & _ & _ & _ & Hs).
  - intros k _. reflexivity.
  - split; [exact Hc | split; [exact Hb | exact Hs]].
Defined.

End HeadsClaims.
(** ** Trigram resolution *)

Module TrigramClaims.
Import IChingCaster.


Lemma join_bits_cons (x : Z) (ls : list Z) :
  QuadrupleGoddessSystem.join_bits (x :: ls) =
    String (if x =? 1 then "1"%char else "0"%char) (QuadrupleGoddessSystem.join_bits ls).
Proof.
  unfold QuadrupleGoddessSystem.join_bits. cbn [fmap list_fmap].
  destruct ls as [|y ls]; [by destruct (x =? 1)|].
  cbn [fmap list_fmap String.concat]. by destruct (x =? 1).
Qed.

Lemma join_bits_length (ls : list Z) :
  String.length (QuadrupleGoddessSystem.join_bits ls) = length ls.
Proof.
  induction ls as [|x ls IH]; [done|].
  rewrite join_bits_cons. simpl. by rewrite IH.
Qed.

Lemma join_bits_chars (ls : list Z) :
  Forall (λ c, c = "0"%char ∨ c = "1"%char)
    (String.list_ascii_of_string (QuadrupleGoddessSystem.join_bits ls)).
Proof.
  induction ls as [|x ls IH]; [constructor|].
  rewrite join_bits_cons. simpl. constructor; [|done].
  destruct (x =? 1); auto.
Qed.

Lemma join_bits_key (ls : list Z) :
  length ls = 6%nat → is_binary_key (QuadrupleGoddessSystem.join_bits ls).
Proof.
  intros Hlen. split; [by rewrite join_bits_length|apply join_bits_chars].
Qed.

(** C9: on a six-character string of '0'/'1' characters,
    [get_trigram_symbols] returns the symbols the table gives for
    characters [3:6] (lower) and [0:3] (upper); both look-ups succeed, so
    neither symbol is the "?" sentinel.  The table maps 111 to the symbol
    named Heaven, 110 Lake, 101 Fire, 100 Thunder, 011 Wind, 010 Water,
    001 Mountain and 000 Earth. *)
Theorem get_trigram_symbols_total (binary_str : string) :
  is_binary_key binary_str →
  (∃ lower upper,
     trigrams !! slice_from 3 binary_str = Some lower ∧
     trigrams !! slice_to 3 binary_str = Some upper ∧
     get_trigram_symbols binary_str = (lower, upper) ∧
     lower ≠ "?" ∧ upper ≠ "?") ∧
  (λ key, get_trigram_name <$> trigrams !! key)
    <$> ["111"; "110"; "101"; "100"; "011"; "010"; "001"; "000"]
  = Some <$> ["Heaven"; "Lake"; "Fire"; "Thunder"; "Wind"; "Water";
              "Mountain"; "Earth"].
Proof.
  intros [Hlen Hall]. split; [|reflexivity].
  destruct binary_str as [|c1 [|c2 [|c3 [|c4 [|c5 [|c6 [|c7 rest]]]]]]];
    try discriminate Hlen.
  cbn in Hall.
  repeat match goal with
         | H : Forall _ (_ :: _) |- _ => apply Forall_cons in H as [? H]
         end.
  repeat match goal with
         | H : _ = _ ∨ _ = _ |- _ => destruct H as [H|H]; rewrite H
         end;
    eexists _, _; (split_and!; [vm_compute; reflexivity ..| |]); discriminate.
Qed.

Lemma get_trigram_symbols_total_witness :
  ∃ lower upper,
    trigrams !! slice_from 3 "101000" = Some lower ∧
    trigrams !! slice_to 3 "101000" = Some upper ∧
    get_trigram_symbols "101000" = (lower, upper) ∧
    lower ≠ "?" ∧ upper ≠ "?".
Proof.
  destruct (get_trigram_symbols_total "101000") as [H _]; [|exact H].
  split; [reflexivity|]. cbn.
  repeat (apply Forall_cons; split; [auto|]). constructor.
Defined.

End TrigramClaims.
(** ** Magic squares *)

Module Magic.
Import MagicSquareGenerator.


Lemma elem_of_range_from lo hi x : x ∈ range_from lo hi ↔ lo ≤ x < hi.
Proof. unfold range_from. rewrite elem_of_seqZ. lia. Qed.

Lemma length_range_from lo hi : length (range_from lo hi) = Z.to_nat (hi - lo).
Proof. unfold range_from. apply length_seqZ. Qed.

Lemma length_concat_uniform {A} n (ls : list (list A)) :
  Forall (λ row, length row = n) ls → length (concat ls) = (length ls * n)%nat.
Proof.
  induction 1 as [|row ls Hrow _ IH]; [done|].
  simpl. rewrite length_app, IH, Hrow. lia.
Qed.

Lemma distinct_entries_permutation (m : nat) (l : list Z) :
  NoDup l → Forall (λ v, 1 ≤ v ≤ Z.of_nat m) l → length l = m →
  l ≡ₚ range_from 1 (Z.of_nat m + 1).
Proof.
  intros Hnd Hall Hlen. apply submseteq_length_Permutation.
  - apply NoDup_submseteq; [done|]. intros x Hx.
    apply elem_of_range_from. rewrite Forall_forall in Hall.
    specialize (Hall x Hx). lia.
  - rewrite length_range_from, Hlen. lia.
Qed.

Lemma magic_check_sound n square : magic_check n square → is_magic n square.
Proof.
  intros (Hh & Hw & Hnd & Hr & Hrows & Hcols & Hm & Ha).
  split; try done.
  - replace (Z.of_nat n * Z.of_nat n) with (Z.of_nat (n * n)) by lia.
    apply distinct_entries_permutation; [done| |].
    + eapply Forall_impl; [exact Hr|]. intros v ?; simpl in *. lia.
    + rewrite (length_concat_uniform n) by done. by rewrite Hh.
  - intros j Hj. rewrite Forall_forall in Hcols. apply Hcols.
    apply elem_of_seq. lia.
Qed.

Lemma magic_check_true n square :
  bool_decide (magic_check n square) = true → is_magic n square.
Proof. intros H. apply magic_check_sound. by apply bool_decide_eq_true in H. Qed.

(** C8: each of the seven fixed planetary squares is an N by N matrix of
    the distinct integers 1..N*N whose rows, columns and both main diagonals
    all sum to N*(N*N+1)/2. *)
Theorem planetary_squares_magic :
  is_magic 3 (generate_saturn_square ()) ∧
  is_magic 4 (generate_jupiter_square ()) ∧
  is_magic 5 (generate_mars_square ()) ∧
  is_magic 6 (generate_sun_square ()) ∧
  is_magic 7 (generate_venus_square ()) ∧
  is_magic 8 (generate_mercury_square ()) ∧
  is_magic 9 (generate_moon_square ()).
Proof. split_and!; apply magic_check_true; vm_compute; reflexivity. Qed.

End Magic.

(** ** Lookup by planet name *)

Module PlanetClaims.
Import MagicSquareGenerator.


(** C10: for each of the seven planet names [get_square_by_planet]
    returns the planet's fixed square together with its dimension (for
    "Saturn" the 3 by 3 matrix [[4,9,2],[3,5,7],[8,1,6]] and 3, whose magic
    constant is 15); for every other name it returns the Saturn square and
    3. *)
Theorem get_square_by_planet_cases :
  (∀ size,
     get_square_by_planet "Saturn" size = ([[4; 9; 2]; [3; 5; 7]; [8; 1; 6]], 3)) ∧
  magic_constant 3 = 15 ∧
  Forall (λ '(planet_name, square, n),
            (∀ size, get_square_by_planet planet_name size = (square, Z.of_nat n)) ∧
            length square = n ∧ Forall (λ row, length row = n) square)
    [ ("Saturn", generate_saturn_square (), 3%nat);
      ("Jupiter", generate_jupiter_square (), 4%nat);
      ("Mars", generate_mars_square (), 5%nat);
      ("Sun", generate_sun_square (), 6%nat);
      ("Venus", generate_venus_square (), 7%nat);
      ("Mercury", generate_mercury_square (), 8%nat);
      ("Moon", generate_moon_square (), 9%nat) ] ∧
  (∀ planet_name size,
     planet_name ∉ planet_names →
     get_square_by_planet planet_name size = (generate_saturn_square (), 3)).
Proof.
  split_and!.
  - reflexivity.
  - reflexivity.
  - repeat (apply Forall_cons; split;
            [split_and!; [reflexivity|reflexivity|repeat constructor]|]).
    constructor.
  - intros planet_name size Hnot. unfold get_square_by_planet.
    assert (planet_squares !! planet_name = None) as ->; [|done].
    apply not_elem_of_list_to_map_1. exact Hnot.
Qed.

Lemma get_square_by_planet_cases_witness :
  get_square_by_planet "Pluto" None = (generate_saturn_square (), 3).
Proof.
  destruct get_square_by_planet_cases as (_ & _ & _ & H).
  apply H. unfold planet_names.
  repeat (apply not_elem_of_cons; split; [discriminate|]). apply not_elem_of_nil.
Defined.

End PlanetClaims.

(** ** The yarrow-stalk method *)

Module YarrowClaims.
Import IChingCaster.

(** The two remainders of a division of [n] stalks add up to [n] modulo 4
    and lie between 2 and 8. *)
Lemma remainder_sum (n g : Z) :
  let r := stalk_remainder g + stalk_remainder (n - g) in
  (n `mod` 4 = 1 → r = 5) ∧ (n `mod` 4 = 3 → r = 3 ∨ r = 7).
Proof.
  cbv zeta. unfold stalk_remainder.
  destruct (Z.eqb_spec (g `mod` 4) 0), (Z.eqb_spec ((n - g) `mod` 4) 0);
    split; intros Hn; Z.to_euclidean_division_equations; lia.
Qed.

(** One division: [stalks] drops by one plus the remainder sum of some
    split [g]; the line value is set on the third division only. *)
Lemma division_body_value (division : Z) (l : yarrow_locals) (s : RandomSource) :
  ∃ g,
    let r := stalk_remainder g + stalk_remainder (stalks l - 1 - g) in
    (division_body division l s).1 =
      {| stalks := stalks l - 1 - r;
         line_value :=
           if division =? 2
           then bool_int (r =? 4) * 2 + bool_int (r =? 8) * 3
           else line_value l;
         remainder := r |}.
Proof.
  unfold division_body, mbind, rand_bind, mret, rand_ret.
  destruct (1 <? stalks l - 1).
  - destruct (random_randint 1 (stalks l - 1 - 1) s) as [g s']. by exists g.
  - by exists 1.
Qed.

(** The locals of a line after its three divisions: the last remainder
    sum is 3 or 7 and the line value is 0. *)
Lemma yarrow_divisions_value (s : RandomSource) :
  let l := (yarrow_divisions s).1 in
  (remainder l = 3 ∨ remainder l = 7) ∧ line_value l = 0.
Proof.
  cbv zeta. unfold yarrow_divisions.
  change (range 3) with [0; 1; 2]. cbn [for_each].
  unfold mbind, rand_bind, mret, rand_ret.
  set (l0 := {| stalks := 50; line_value := 0; remainder := 0 |}).
  destruct (division_body_value 0 l0 s) as [g1 E1].
  destruct (division_body 0 l0 s) as [l1 s1]. cbn [fst] in E1.
  destruct (division_body_value 1 l1 s1) as [g2 E2].
  destruct (division_body 1 l1 s1) as [l2 s2]. cbn [fst] in E2.
  destruct (division_body_value 2 l2 s2) as [g3 E3].
  destruct (division_body 2 l2 s2) as [l3 s3]. cbn [fst] in E3.
  cbn [fst]. subst l1 l2 l3. cbn [stalks line_value remainder] in *.
  subst l0. cbn [stalks].
  destruct (remainder_sum (50 - 1) g1) as [H1 _]. specialize (H1 eq_refl).
  cbv zeta in H1. rewrite H1.
  destruct (remainder_sum (50 - 1 - 5 - 1) g2) as [_ H2]. specialize (H2 eq_refl).
  cbv zeta in H2.
  destruct H2 as [H2|H2]; rewrite H2.
  - destruct (remainder_sum (50 - 1 - 5 - 1 - 3 - 1) g3) as [_ H3].
    specialize (H3 eq_refl). cbv zeta in H3.
    destruct H3 as [H3|H3]; rewrite H3; split; auto.
  - destruct (remainder_sum (50 - 1 - 5 - 1 - 7 - 1) g3) as [_ H3].
    specialize (H3 eq_refl). cbv zeta in H3.
    destruct H3 as [H3|H3]; rewrite H3; split; auto.
Qed.

(** C1 (as the code behaves): on every line the remainder sum of the third
    division is 3 or 7, never 4 or 8, and the line value it sets is 0,
    which is none of 6, 7, 8, 9. *)
Theorem yarrow_third_division (s : RandomSource) :
  let l := (yarrow_divisions s).1 in
  (remainder l = 3 ∨ remainder l = 7) ∧
  remainder l ≠ 4 ∧ remainder l ≠ 8 ∧
  line_value l = 0.
Proof.
  cbv zeta. destruct (yarrow_divisions_value s) as [Hr Hv].
  split_and!; [done| | |done]; lia.
Qed.

(** The run in which every [random.randint] call returns 1: the pool goes
    50, 44, 40, 36 and the remainder sums are 5, 3, 3. *)
Example yarrow_divisions_all_ones :
  (yarrow_divisions {| tape := λ _, 0; pos := 0 |}).1
    = {| stalks := 36; line_value := 0; remainder := 3 |}.
Proof. reflexivity. Qed.

Example cast_yarrow_stalks_all_ones :
  (cast_yarrow_stalks {| tape := λ _, 0; pos := 0 |}).1 = ([], []).
Proof. reflexivity. Qed.

Lemma yarrow_body_skip (line_position : Z) (st : list Z * list Z) s :
  (yarrow_body line_position st s).1 = st.
Proof.
  unfold yarrow_body, mbind, rand_bind, mret, rand_ret.
  destruct (yarrow_divisions_value s) as [_ H].
  destruct (yarrow_divisions s) as [l s']. cbn [fst] in *. rewrite H.
  by destruct st.
Qed.

Lemma for_each_yarrow_skip xs (st : list Z * list Z) s :
  (for_each xs yarrow_body st s).1 = st.
Proof.
  revert st s. induction xs as [|x xs IH]; intros st s; [done|].
  cbn [for_each]. unfold mbind, rand_bind.
  pose proof (yarrow_body_skip x st s) as H.
  destruct (yarrow_body x st s) as [st' s']. cbn [fst] in H. subst st'.
  apply IH.
Qed.

(** No line is ever appended. *)
Lemma cast_yarrow_stalks_nil (s : RandomSource) :
  (cast_yarrow_stalks s).1 = ([], []).
Proof.
  unfold cast_yarrow_stalks, mbind, rand_bind, mret, rand_ret.
  pose proof (for_each_yarrow_skip (range 6) ([], []) s) as H.
  destruct (for_each (range 6) yarrow_body ([], []) s) as [[h c] s'].
  cbn [fst] in H. by injection H as -> ->.
Qed.

(** C2 (as the code behaves): the yarrow-stalk method appends no line at
    all; it returns an empty hexagram and an empty list of changing lines,
    whatever the random source does. *)
Theorem cast_yarrow_stalks_empty (s : RandomSource) :
  (cast_yarrow_stalks s).1 = ([], []) ∧
  length (cast_yarrow_stalks s).1.1 ≠ 6%nat.
Proof. rewrite cast_yarrow_stalks_nil. by split. Qed.

End YarrowClaims.

(** ** The binary key of a casting *)

Module CastingClaims.
Import IChingCaster QuadrupleGoddessSystem CoinFacts CoinClaims.
Import TrigramClaims YarrowClaims.

Section Casting.
Variable iching_hexagrams : gmap string (gmap string (gmap string pyval)).

Lemma randint_bit s : (random_randint 0 1 s).1 = 0 ∨ (random_randint 0 1 s).1 = 1.
Proof.
  unfold random_randint, mbind, rand_bind, mret, rand_ret, next_raw. cbn [fst].
  Z.to_euclidean_division_equations; lia.
Qed.

Lemma cast_coins_length s : length (cast_coins s).1.1 = 6%nat.
Proof.
  rewrite cast_coins_eq. cbn [fst].
  by rewrite length_reverse, length_fmap, comprehension_length.
Qed.

Lemma cast_coins_bits s : Forall (λ x, x = 0 ∨ x = 1) (cast_coins s).1.1.
Proof.
  rewrite cast_coins_eq. cbn [fst].
  apply Forall_reverse, Forall_fmap, Forall_true. intros t.
  unfold line_of_total. simpl. destruct (_ || _); auto.
Qed.

(** Each casting step yields six lines, except the yarrow-stalk one, which
    yields none. *)
Lemma cast_by_method_length method s :
  length (cast_by_method method s).1.1 = 6%nat ∨ (cast_by_method method s).1.1 = [].
Proof.
  unfold cast_by_method. repeat case_decide.
  - left. apply cast_coins_length.
  - right. by rewrite cast_yarrow_stalks_nil.
  - left. unfold mbind, rand_bind, mret, rand_ret.
    pose proof (comprehension_length 6 (random_randint 0 1) s) as Hlen.
    by destruct (comprehension 6 (random_randint 0 1) s).
Qed.

Lemma pad_lines_value (hexagram_lines : list Z) s :
  (pad_lines hexagram_lines s).1 =
    hexagram_lines
      ++ (comprehension (6 - length hexagram_lines) (random_randint 0 1) s).1.
Proof.
  unfold pad_lines. case_decide as Hlt.
  - unfold mbind, rand_bind, mret, rand_ret. by destruct (comprehension _ _ s).
  - replace (6 - length hexagram_lines)%nat with 0%nat by lia.
    simpl. by rewrite app_nil_r.
Qed.

Lemma cast_iching_traditional_lines method s :
  let r := (cast_iching_traditional iching_hexagrams method s).1 in
  lines r = (pad_lines (cast_by_method method s).1.1 (cast_by_method method s).2).1 ∧
  changing_lines r = (cast_by_method method s).1.2 ∧
  binary r = join_bits (lines r) ∧
  (changing_lines r = [] → secondary r = None).
Proof.
  cbv zeta. unfold cast_iching_traditional, mbind, rand_bind, mret, rand_ret.
  destruct (cast_by_method method s) as [[h c] s1]. cbn [fst snd].
  destruct (pad_lines h s1) as [h' s2]. cbn [fst].
  destruct (get_trigram_symbols (join_bits h')) as [lo up].
  destruct c as [|n c]; [done|].
  by destruct (get_trigram_symbols _) as [lo' up'].
Qed.

(** C3: whatever the method argument, the lines of the result are the
    lines of the casting step followed by as many draws of
    [random.randint(0, 1)] as are missing to six, each such draw being 0 or
    1, and the "binary" field, built from these lines, is a string of
    exactly six characters, each '0' or '1'. *)
Theorem cast_iching_traditional_binary (method : string) (s : RandomSource) :
  let cast := cast_by_method method s in
  let r := (cast_iching_traditional iching_hexagrams method s).1 in
  let extra :=
    (comprehension (6 - length cast.1.1) (random_randint 0 1) cast.2).1 in
  lines r = cast.1.1 ++ extra ∧
  Forall (λ x, x = 0 ∨ x = 1) extra ∧
  length (lines r) = 6%nat ∧
  binary r = join_bits (lines r) ∧
  String.length (binary r) = 6%nat ∧
  Forall (λ c, c = "0"%char ∨ c = "1"%char) (String.list_ascii_of_string (binary r)).
Proof.
  cbv zeta.
  destruct (cast_iching_traditional_lines method s) as (Hl & _ & Hb & _).
  rewrite pad_lines_value in Hl.
  assert (Hlen : length (lines (cast_iching_traditional iching_hexagrams method s).1) = 6%nat).
  { rewrite Hl, length_app, comprehension_length.
    destruct (cast_by_method_length method s) as [-> | ->]; done. }
  split_and!; [done| |done|done| |].
  - apply comprehension_Forall, randint_bit.
  - by rewrite Hb, join_bits_length.
  - rewrite Hb. apply join_bits_chars.
Qed.

(** The coin method returns six lines, each 0 or 1, and records distinct
    changing line numbers between 1 and 6. *)
Theorem cast_coins_shape (s : RandomSource) :
  length (cast_coins s).1.1 = 6%nat ∧
  Forall (λ x, x = 0 ∨ x = 1) (cast_coins s).1.1 ∧
  NoDup (cast_coins s).1.2 ∧
  Forall (λ n, 1 ≤ n ≤ 6) (cast_coins s).1.2.
Proof.
  split_and!; [apply cast_coins_length|apply cast_coins_bits|..];
    rewrite cast_coins_eq; cbn [snd].
  - apply (sublist_NoDup _ ((λ n, n + 1) <$> range 6));
      [|apply changing_sublist].
    apply (bool_decide_unpack _). by vm_compute.
  - apply Forall_forall. intros x Hx.
    assert (x ∈ (λ n, n + 1) <$> range 6) as Hin.
    { eapply elem_of_submseteq; [exact Hx|].
      apply sublist_submseteq, changing_sublist. }
    apply list_elem_of_fmap in Hin as (n & -> & Hn).
    apply list_elem_of_lookup in Hn as [i Hi].
    apply range_lookup_Some in Hi. lia.
Qed.

(** With a method other than "coins" and "yarrow" the six lines are six
    draws of [random.randint(0, 1)], there is no changing line and no
    secondary hexagram. *)
Theorem uniform_random_casting (method : string) (s : RandomSource) :
  method ≠ "coins" → method ≠ "yarrow" →
  let r := (cast_iching_traditional iching_hexagrams method s).1 in
  lines r = (comprehension 6 (random_randint 0 1) s).1 ∧
  length (lines r) = 6%nat ∧
  Forall (λ x, x = 0 ∨ x = 1) (lines r) ∧
  changing_lines r = [] ∧
  secondary r = None.
Proof.
  intros Hc Hy. cbv zeta.
  destruct (cast_iching_traditional_lines method s) as (Hl & Hch & _ & Hsec).
  assert (Hcast : (cast_by_method method s).1
                  = ((comprehension 6 (random_randint 0 1) s).1, [])).
  { unfold cast_by_method. rewrite !decide_False by done.
    unfold mbind, rand_bind, mret, rand_ret.
    by destruct (comprehension 6 (random_randint 0 1) s). }
  rewrite Hcast in Hl, Hch. cbn [fst snd] in Hl, Hch.
  rewrite pad_lines_value, comprehension_length, Nat.sub_diag in Hl.
  change (comprehension 0 (random_randint 0 1) ?s').1 with (@nil Z) in Hl.
  rewrite app_nil_r in Hl.
  split_and!; [done| | |done|by apply Hsec].
  - by rewrite Hl, comprehension_length.
  - rewrite Hl. apply comprehension_Forall, randint_bit.
Qed.

(** With the method "yarrow" all six lines of the result are padding:
    draws of [random.randint(0, 1)] made after the casting step, which
    contributes no line; there is no changing line and no secondary
    hexagram. *)
Theorem yarrow_casting_padded (s : RandomSource) :
  let r := (cast_iching_traditional iching_hexagrams "yarrow" s).1 in
  lines r =
    (comprehension 6 (random_randint 0 1) (cast_yarrow_stalks s).2).1 ∧
  changing_lines r = [] ∧
  secondary r = None.
Proof.
  cbv zeta.
  destruct (cast_iching_traditional_lines "yarrow" s) as (Hl & Hch & _ & Hsec).
  assert (Hcast : cast_by_method "yarrow" s = cast_yarrow_stalks s).
  { unfold cast_by_method. by rewrite decide_False, decide_True. }
  rewrite Hcast, cast_yarrow_stalks_nil in Hl, Hch. cbn [fst snd] in Hl, Hch.
  rewrite pad_lines_value in Hl. cbn [length app] in Hl.
  split_and!; [done|done|by apply Hsec].
Qed.

End Casting.

Lemma uniform_random_casting_witness :
  length (lines (cast_iching_traditional ∅ "random" all_heads).1) = 6%nat ∧
  changing_lines (cast_iching_traditional ∅ "random" all_heads).1 = [].
Proof.
  destruct (uniform_random_casting ∅ "random" all_heads) as (_ & Hlen & _ & Hch & _);
    [discriminate|discriminate|].
  split; [exact Hlen|exact Hch].
Defined.

End CastingClaims.

(** ** The secondary hexagram *)

Module FlipClaims.
Import QuadrupleGoddessSystem.


Lemma flip_line_alter (l : list Z) (n : Z) :
  flip_line l n =
    if decide (0 ≤ 6 - n) then alter flip_bit (Z.to_nat (6 - n)) l else l.
Proof.
  unfold flip_line. cbv zeta.
  destruct (decide (0 ≤ 6 - n < Z.of_nat (length l))) as [Hin|Hout].
  - destruct (decide (0 ≤ 6 - n)) as [_|]; [|lia].
    destruct (lookup_lt_is_Some_2 l (Z.to_nat (6 - n))) as [x Hx]; [lia|].
    rewrite Hx. apply list_eq; intros i.
    rewrite list_lookup_insert, list_lookup_alter.
    case_decide as Hi.
    + destruct Hi as [<- _]. rewrite decide_True by done. by rewrite Hx.
    + case_decide as Hj; [|done]. subst i. exfalso. apply Hi. split; [done|lia].
  - destruct (decide (0 ≤ 6 - n)) as [Hpos|]; [|done].
    apply list_eq; intros i.
    rewrite list_lookup_alter. case_decide as Hi; [|done].
    subst i. rewrite (lookup_ge_None_2 l) by lia. done.
Qed.

Lemma flip_line_length (l : list Z) (n : Z) : length (flip_line l n) = length l.
Proof. rewrite flip_line_alter. case_decide; [apply length_alter|done]. Qed.

Lemma flip_changing_length (l C : list Z) : length (flip_changing l C) = length l.
Proof.
  unfold flip_changing. revert l. induction C as [|n C IH]; intros l; [done|].
  simpl. by rewrite IH, flip_line_length.
Qed.

(** One round flips index [6 - n] and nothing else. *)
Lemma flip_line_lookup (l : list Z) (n : Z) (i : nat) :
  flip_line l n !! i =
    (λ x, if decide (6 - Z.of_nat i = n) then flip_bit x else x) <$> l !! i.
Proof.
  rewrite flip_line_alter. case_decide as Hpos.
  - rewrite list_lookup_alter. case_decide as Hi.
    + subst i. destruct (l !! _); [|done]. cbn [fmap option_fmap option_map]. case_decide; [done|lia].
    + destruct (l !! i); [|done]. cbn [fmap option_fmap option_map]. case_decide; [lia|done].
  - destruct (l !! i); [|done]. cbn [fmap option_fmap option_map]. case_decide; [lia|done].
Qed.

(** With distinct line numbers, the lines whose number is listed are
    flipped once and the others are kept. *)
Lemma flip_changing_lookup (l C : list Z) (i : nat) :
  NoDup C →
  flip_changing l C !! i =
    (λ x, if decide (6 - Z.of_nat i ∈ C) then flip_bit x else x) <$> l !! i.
Proof.
  unfold flip_changing. intros HC. revert l.
  induction HC as [|n C Hn HC IH]; intros l.
  { cbn [foldl]. destruct (l !! i); [|done]. cbn [fmap option_fmap option_map].
    case_decide as Hin; [|done].
    by apply elem_of_nil in Hin. }
  cbn [foldl]. rewrite IH, flip_line_lookup. destruct (l !! i) as [x|]; [|done].
  cbn [fmap option_fmap option_map]. f_equal. rewrite (decide_ext _ _ _ _ (elem_of_cons C _ n)).
  destruct (decide (6 - Z.of_nat i = n)) as [E|E].
  - rewrite decide_False by congruence. rewrite decide_True; auto.
  - destruct (decide (6 - Z.of_nat i ∈ C)) as [Hin|Hin].
    + rewrite decide_True; auto.
    + rewrite decide_False; [done|]. intros [?|?]; done.
Qed.

Lemma flip_bit_involutive (x : Z) : x = 0 ∨ x = 1 → flip_bit (flip_bit x) = x.
Proof. by intros [-> | ->]. Qed.

(** C5: for a primary hexagram of six binary lines and distinct changing
    line numbers in 1..6, the secondary hexagram is the primary with
    exactly the lines at the indices [6 - n], [n] changing, flipped, and
    flipping the same positions once more gives the primary back. *)
Theorem secondary_involution (H C : list Z) :
  length H = 6%nat →
  Forall (λ x, x = 0 ∨ x = 1) H →
  NoDup C →
  Forall (λ n, 1 ≤ n ≤ 6) C →
  (∀ (i : nat) (x : Z), H !! i = Some x →
     flip_changing H C !! i =
       Some (if decide (6 - Z.of_nat i ∈ C) then 1 - x else x)) ∧
  flip_changing (flip_changing H C) C = H.
Proof.
  intros Hlen Hbits HC _.
  assert (Hflip : ∀ x, x = 0 ∨ x = 1 → flip_bit x = 1 - x) by (by intros x [-> | ->]).
  split.
  - intros i x Hx. rewrite flip_changing_lookup, Hx by done. cbn [fmap option_fmap option_map].
    case_decide; [|done]. f_equal. apply Hflip.
    by apply (proj1 (Forall_lookup _ _) Hbits i x).
  - apply list_eq; intros i. rewrite !flip_changing_lookup by done.
    destruct (H !! i) as [x|] eqn:Hx; [|done]. cbn [fmap option_fmap option_map]. f_equal.
    case_decide; [|done]. apply flip_bit_involutive.
    by apply (proj1 (Forall_lookup _ _) Hbits i x).
Qed.

Lemma secondary_involution_witness :
  flip_changing (flip_changing [1; 0; 1; 1; 0; 0] [1; 6; 3]) [1; 6; 3]
    = [1; 0; 1; 1; 0; 0].
Proof.
  apply (secondary_involution [1; 0; 1; 1; 0; 0] [1; 6; 3]).
  - reflexivity.
  - repeat (apply Forall_cons; split; [auto|]). constructor.
  - apply (bool_decide_unpack _). exact I.
  - repeat (apply Forall_cons; split; [lia|]). constructor.
Defined.

End FlipClaims.

(** ** The Siamese construction *)

Module Siamese.
Import MagicSquareGenerator QuadrupleGoddessSystem Magic.


Lemma getitem_in_range {A} (l : list A) (i : Z) :
  0 ≤ i < Z.of_nat (length l) → getitem l i = l !! Z.to_nat i.
Proof. intros Hi. unfold getitem, py_index. by rewrite decide_True by done. Qed.

Lemma setitem_in_range {A} (l : list A) (i : Z) (x : A) :
  0 ≤ i < Z.of_nat (length l) → setitem l i x = Some (<[Z.to_nat i := x]> l).
Proof. intros Hi. unfold setitem, py_index. by rewrite decide_True by done. Qed.

Lemma shape_row n square (r : nat) :
  square_shape n square → (r < n)%nat →
  ∃ row, square !! r = Some row ∧ length row = n.
Proof.
  intros [Hh Hw] Hr.
  destruct (lookup_lt_is_Some_2 square r) as [row Hrow]; [lia|].
  exists row. split; [done|].
  by apply (proj1 (Forall_lookup _ _) Hw r row).
Qed.

Lemma get_cell_in_range n square (r c : Z) :
  square_shape n square → 0 ≤ r < Z.of_nat n → 0 ≤ c < Z.of_nat n →
  get_cell square r c = square !! Z.to_nat r ≫= (.!! Z.to_nat c).
Proof.
  intros Hs Hr Hc. unfold get_cell.
  rewrite getitem_in_range by (destruct Hs as [-> _]; lia).
  destruct (shape_row n square (Z.to_nat r) Hs) as (row & -> & Hlen); [lia|].
  simpl. apply getitem_in_range. lia.
Qed.

(** Writing a cell in range succeeds, keeps the shape and changes that
    cell only. *)
Lemma set_cell_in_range n square (i j v : Z) :
  square_shape n square → 0 ≤ i < Z.of_nat n → 0 ≤ j < Z.of_nat n →
  ∃ square',
    set_cell square i j v = Some square' ∧
    square_shape n square' ∧
    ∀ r c, 0 ≤ r < Z.of_nat n → 0 ≤ c < Z.of_nat n →
      get_cell square' r c =
        if decide (r = i ∧ c = j) then Some v else get_cell square r c.
Proof.
  intros Hs Hi Hj.
  destruct (shape_row n square (Z.to_nat i) Hs) as (row & Hrow & Hlen); [lia|].
  pose proof Hs as [Hh Hw].
  exists (<[Z.to_nat i := <[Z.to_nat j := v]> row]> square).
  assert (Hs' : square_shape n (<[Z.to_nat i := <[Z.to_nat j := v]> row]> square)).
  { split; [by rewrite length_insert|].
    apply Forall_insert; [done|]. by rewrite length_insert. }
  split_and!; [|done|].
  - unfold set_cell. rewrite getitem_in_range by lia. rewrite Hrow. simpl.
    rewrite setitem_in_range by lia. simpl.
    apply setitem_in_range. lia.
  - intros r c Hr Hc.
    rewrite (get_cell_in_range n _ r c Hs' Hr Hc).
    rewrite (get_cell_in_range n _ r c Hs Hr Hc).
    destruct (decide (Z.to_nat i = Z.to_nat r)) as [E|E].
    + assert (r = i) as -> by lia.
      rewrite list_lookup_insert_eq by lia. rewrite Hrow. simpl.
      destruct (decide (Z.to_nat j = Z.to_nat c)) as [E'|E'].
      * assert (c = j) as -> by lia.
        rewrite list_lookup_insert_eq by lia. by rewrite decide_True.
      * rewrite list_lookup_insert_ne by done.
        rewrite decide_False; [done|]. intros [_ ->]. done.
    + rewrite list_lookup_insert_ne by done.
      rewrite decide_False; [done|]. intros [-> _]. done.
Qed.

Lemma blank_square_shape (size : Z) :
  square_shape (Z.to_nat size) (blank_square size).
Proof.
  unfold blank_square. split; [by rewrite length_replicate|].
  apply Forall_replicate. by rewrite length_replicate.
Qed.

Lemma blank_square_cell (size r c : Z) :
  0 ≤ r < size → 0 ≤ c < size → get_cell (blank_square size) r c = Some 0.
Proof.
  intros Hr Hc.
  rewrite (get_cell_in_range (Z.to_nat size)) by (apply blank_square_shape || lia).
  unfold blank_square. rewrite lookup_replicate_2 by lia. simpl.
  apply lookup_replicate_2. lia.
Qed.


(** Sums of lists of integers. *)
Lemma foldl_add_acc (acc : Z) (l : list Z) :
  foldl Z.add acc l = acc + foldl Z.add 0 l.
Proof.
  revert acc. induction l as [|x l IH]; intros acc; cbn [foldl]; [lia|].
  rewrite (IH (acc + x)), (IH (0 + x)). lia.
Qed.

Lemma sum_cons (x : Z) (l : list Z) : sum (x :: l) = x + sum l.
Proof. unfold sum. cbn [foldl]. rewrite foldl_add_acc. lia. Qed.

Lemma sum_nil : sum [] = 0.
Proof. done. Qed.

Lemma sum_permutation (l l' : list Z) : l ≡ₚ l' → sum l = sum l'.
Proof.
  induction 1 as [|x l l' _ IH|x y l|l l' l'' _ IH1 _ IH2];
    rewrite ?sum_cons; lia.
Qed.

Lemma sum_block_offset {A} (f g : A → Z) (N : Z) (l : list A) :
  sum ((λ x, f x * N + g x + 1) <$> l) =
    N * sum (f <$> l) + sum (g <$> l) + Z.of_nat (length l).
Proof.
  induction l as [|x l IH]; [by rewrite Z.mul_0_r|].
  cbn [fmap list_fmap length]. rewrite !sum_cons.
  change (list_fmap A Z ?h l) with (h <$> l). rewrite IH. lia.
Qed.

Lemma sum_complement {A} (f : A → Z) (K : Z) (l : list A) :
  sum ((λ x, K - f x) <$> l) = K * Z.of_nat (length l) - sum (f <$> l).
Proof.
  induction l as [|x l IH]; [by rewrite Z.mul_0_r|].
  cbn [fmap list_fmap length]. rewrite !sum_cons.
  change (list_fmap A Z ?h l) with (h <$> l). rewrite IH. lia.
Qed.

Lemma sum_seqZ (n : nat) : 2 * sum (seqZ 0 (Z.of_nat n)) = Z.of_nat n * (Z.of_nat n - 1).
Proof.
  induction n as [|n IH]; [done|].
  rewrite seqZ_S. transitivity (2 * (sum (seqZ 0 (Z.of_nat n)) + Z.of_nat n)).
  - f_equal. rewrite (sum_permutation _ (Z.of_nat n :: seqZ 0 (Z.of_nat n))).
    + rewrite sum_cons. lia.
    + rewrite Z.add_0_l. symmetry. apply Permutation_cons_append.
  - lia.
Qed.

Lemma reverse_fmap_seqZ {A} (f : Z → A) (n : Z) :
  reverse (f <$> seqZ 0 n) = (λ r, f (n - 1 - r)) <$> seqZ 0 n.
Proof.
  apply list_eq; intros i.
  destruct (decide (Z.of_nat i < n)) as [Hi|Hi].
  - rewrite reverse_lookup by (rewrite length_fmap, length_seqZ; lia).
    rewrite !list_lookup_fmap, length_fmap, length_seqZ.
    rewrite !lookup_seqZ_lt by lia. simpl. f_equal. f_equal. lia.
  - rewrite !(lookup_ge_None_2) by
      (rewrite ?length_reverse, length_fmap, length_seqZ; lia). done.
Qed.

(** A function on [0 .. n-1] that the reflection [r ↦ n - 1 - r] sends to
    its complement to [K]. *)
Lemma sum_symmetric (f : Z → Z) (K n : Z) :
  0 ≤ n →
  (∀ r, 0 ≤ r < n → f (n - 1 - r) = K - f r) →
  2 * sum (f <$> seqZ 0 n) = K * n.
Proof.
  intros Hn Hf.
  assert (sum (f <$> seqZ 0 n) = K * n - sum (f <$> seqZ 0 n)); [|lia].
  rewrite (sum_permutation _ (reverse (f <$> seqZ 0 n))) at 1
    by (symmetry; apply reverse_Permutation).
  rewrite reverse_fmap_seqZ.
  rewrite (list_fmap_ext _ (λ r, K - f r)).
  - rewrite sum_complement, length_seqZ, Z2Nat.id by done. reflexivity.
  - intros i r Hr. apply lookup_seqZ in Hr. apply Hf. lia.
Qed.

(** A map of [0 .. n-1] into itself that is injective there permutes it. *)
Lemma injective_permutation (f : Z → Z) (n : Z) :
  (∀ x, 0 ≤ x < n → 0 ≤ f x < n) →
  (∀ x y, 0 ≤ x < n → 0 ≤ y < n → f x = f y → x = y) →
  f <$> seqZ 0 n ≡ₚ seqZ 0 n.
Proof.
  intros Hrange Hinj. apply submseteq_length_Permutation.
  - apply NoDup_submseteq.
    + apply NoDup_fmap_2_strong; [|apply NoDup_seqZ].
      intros x y Hx Hy. apply elem_of_seqZ in Hx, Hy. apply Hinj; lia.
    + intros y Hy. apply list_elem_of_fmap in Hy as (x & -> & Hx).
      apply elem_of_seqZ in Hx. apply elem_of_seqZ.
      specialize (Hrange x). lia.
  - by rewrite length_fmap.
Qed.


Lemma mod_congr (N x y q : Z) : x = y + q * N → x `mod` N = y `mod` N.
Proof. intros ->. apply Z_mod_plus_full. Qed.

(** Two sides that agree modulo [N] up to [q * N]. *)
Ltac mod_eq q := Z.push_pull_mod; apply (mod_congr _ _ _ q); lia.

Section Order.
Variables N h : Z.
Hypothesis N_odd : N = 2 * h + 1.
Hypothesis h_nonneg : 0 ≤ h.

Lemma half : N `div` 2 = h.
Proof. subst N. Z.to_euclidean_division_equations; lia. Qed.

Lemma N_pos : 0 < N.
Proof. lia. Qed.

Lemma block_range r c : 0 ≤ block N r c < N.
Proof. apply Z.mod_pos_bound, N_pos. Qed.

Lemma offset_range r c : 0 ≤ offset N r c < N.
Proof. apply Z.mod_pos_bound, N_pos. Qed.

Lemma row_of_range k : 0 ≤ row_of N k < N.
Proof. apply Z.mod_pos_bound, N_pos. Qed.

Lemma col_of_range k : 0 ≤ col_of N k < N.
Proof. apply Z.mod_pos_bound, N_pos. Qed.

Lemma entry_range r c : 1 ≤ entry N r c ≤ N * N.
Proof.
  unfold entry. pose proof (block_range r c). pose proof (offset_range r c). nia.
Qed.

(** Quotient and remainder of [a * N + b]. *)
Lemma div_block a b : 0 ≤ b < N → (a * N + b) `div` N = a.
Proof. intros Hb. symmetry. apply (Z.div_unique _ _ _ b); [lia|ring]. Qed.

Lemma mod_block a b : 0 ≤ b < N → (a * N + b) `mod` N = b.
Proof. intros Hb. symmetry. apply (Z.mod_unique _ _ a b); [lia|ring]. Qed.

(** The cell of the number [a * N + b + 1]. *)
Lemma block_at a b :
  0 ≤ a < N →
  block N ((2 * a - b) `mod` N) ((h - a + b) `mod` N) = a.
Proof.
  intros Ha. unfold block. rewrite half.
  rewrite <- (Z.mod_small a N) at 3 by done. mod_eq 0.
Qed.

Lemma offset_at a b :
  0 ≤ a < N → 0 ≤ b < N →
  offset N ((2 * a - b) `mod` N) ((h - a + b) `mod` N) = b.
Proof.
  intros Ha Hb. unfold offset. rewrite block_at by done.
  rewrite <- (Z.mod_small b N) at 2 by done. mod_eq 0.
Qed.

Lemma entry_at_pos k :
  0 ≤ k < N * N → entry N (row_of N k) (col_of N k) = k + 1.
Proof.
  intros Hk. unfold entry, row_of, col_of. rewrite half.
  pose proof N_pos.
  assert (0 ≤ k `div` N < N).
  { split; [apply Z.div_pos; lia|apply Z.div_lt_upper_bound; lia]. }
  pose proof (Z.mod_pos_bound k N ltac:(lia)).
  rewrite block_at, offset_at by done.
  pose proof (Z.div_mod k N ltac:(lia)). lia.
Qed.

(** The cell is determined by the number it holds. *)
Lemma entry_inj r c k :
  0 ≤ r < N → 0 ≤ c < N → entry N r c = k + 1 →
  r = row_of N k ∧ c = col_of N k.
Proof.
  intros Hr Hc He. unfold entry in He.
  pose proof (block_range r c) as Ha. pose proof (offset_range r c) as Hb.
  assert (k = block N r c * N + offset N r c) as -> by lia.
  unfold row_of, col_of. rewrite div_block, mod_block, half by done.
  unfold offset, block. rewrite half. split.
  - rewrite <- (Z.mod_small r N) at 1 by done. mod_eq 0.
  - rewrite <- (Z.mod_small c N) at 1 by done. mod_eq 0.
Qed.


(** Moving up and to the right stays in the block and advances the offset. *)
Lemma block_neighbour r c :
  block N ((r - 1) `mod` N) ((c + 1) `mod` N) = block N r c.
Proof. unfold block. mod_eq 0. Qed.

Lemma offset_neighbour r c :
  offset N ((r - 1) `mod` N) ((c + 1) `mod` N) = (offset N r c + 1) `mod` N.
Proof. unfold offset. rewrite block_neighbour. mod_eq 0. Qed.

Lemma entry_neighbour r c :
  entry N ((r - 1) `mod` N) ((c + 1) `mod` N) =
    block N r c * N + (offset N r c + 1) `mod` N + 1.
Proof. unfold entry. by rewrite block_neighbour, offset_neighbour. Qed.

Lemma next_pos_free k :
  0 ≤ k → k `mod` N + 1 < N →
  row_of N (k + 1) = (row_of N k - 1) `mod` N ∧
  col_of N (k + 1) = (col_of N k + 1) `mod` N.
Proof.
  intros Hk Hb. pose proof N_pos. unfold row_of, col_of.
  pose proof (Z.div_mod k N ltac:(lia)) as Hdm.
  pose proof (Z.mod_pos_bound k N ltac:(lia)) as Hbb.
  set (a := k `div` N) in *. set (b := k `mod` N) in *.
  replace (k + 1) with (a * N + (b + 1)) by lia.
  rewrite div_block, mod_block by lia. clearbody a b.
  split; mod_eq 0.
Qed.

Lemma next_pos_blocked k :
  0 ≤ k → k `mod` N + 1 = N →
  row_of N (k + 1) = (row_of N k + 1) `mod` N ∧
  col_of N (k + 1) = col_of N k.
Proof.
  intros Hk Hb. pose proof N_pos. unfold row_of, col_of.
  pose proof (Z.div_mod k N ltac:(lia)) as Hdm.
  set (a := k `div` N) in *. set (b := k `mod` N) in *.
  replace (k + 1) with ((a + 1) * N + 0) by lia.
  rewrite div_block, mod_block by lia. clearbody a b.
  split; [mod_eq 1|mod_eq (-1)].
Qed.


Lemma siamese_inv_init : siamese_inv N 0 (blank_square N, 0, N `div` 2).
Proof.
  pose proof N_pos. split_and!.
  - apply blank_square_shape.
  - intros r c Hr Hc. rewrite blank_square_cell by done.
    pose proof (entry_range r c). by rewrite decide_False by lia.
  - unfold row_of. by rewrite Z.div_0_l, Z.mod_0_l by lia.
  - unfold col_of. rewrite Z.div_0_l, Z.mod_0_l, half by lia.
    rewrite Z.mod_small; lia.
Qed.

Lemma siamese_body_inv k st :
  0 ≤ k < N * N → siamese_inv N k st →
  ∃ st', siamese_body N (k + 1) st = Some st' ∧ siamese_inv N (k + 1) st'.
Proof.
  intros Hk. destruct st as [[square i] j]. intros (Hs & Hcells & -> & ->).
  pose proof N_pos.
  pose proof (row_of_range k) as Hi. pose proof (col_of_range k) as Hj.
  destruct (set_cell_in_range (Z.to_nat N) square (row_of N k) (col_of N k) (k + 1) Hs)
    as (square' & Hset & Hs' & Hget); [lia..|].
  assert (Hcells' : ∀ r c, 0 ≤ r < N → 0 ≤ c < N →
     get_cell square' r c =
       Some (if decide (entry N r c ≤ k + 1) then entry N r c else 0)).
  { intros r c Hr Hc. rewrite Hget by lia. case_decide as Heq.
    - destruct Heq as [-> ->]. rewrite entry_at_pos by done.
      by rewrite decide_True by lia.
    - rewrite Hcells by done. f_equal.
      assert (entry N r c ≠ k + 1).
      { intros He. apply Heq. by apply entry_inj. }
      repeat case_decide; (done || lia). }
  unfold siamese_body. rewrite Hset. cbn [mbind option_bind].
  rewrite Hcells' by (apply Z.mod_pos_bound; lia). cbn [mbind option_bind].
  rewrite !entry_neighbour.
  pose proof (entry_at_pos k Hk) as He. unfold entry in He.
  pose proof (offset_range (row_of N k) (col_of N k)) as Hb.
  pose proof (block_range (row_of N k) (col_of N k)) as Ha.
  set (a := block N (row_of N k) (col_of N k)) in *.
  set (b := offset N (row_of N k) (col_of N k)) in *.
  assert (Hkb : k `mod` N = b).
  { replace k with (a * N + b) by lia. apply mod_block. lia. }
  destruct (decide (b + 1 < N)) as [Hfree|Hfull].
  - rewrite (Z.mod_small (b + 1) N) by lia.
    rewrite decide_False by lia. rewrite bool_decide_eq_false_2 by (intros ?; done).
    eexists. split; [done|].
    destruct (next_pos_free k) as [E1 E2]; [lia..|]. by split_and!.
  - assert (b + 1 = N) as Hb1 by lia. rewrite Hb1, Z.mod_same by lia.
    rewrite decide_True by lia. rewrite bool_decide_eq_true_2 by lia.
    eexists. split; [done|].
    destruct (next_pos_blocked k) as [E1 E2]; [lia..|]. by split_and!.
Qed.

Lemma siamese_loop_inv (m : nat) k st :
  0 ≤ k → k + Z.of_nat m ≤ N * N → siamese_inv N k st →
  ∃ st', for_each_opt (seqZ (k + 1) (Z.of_nat m)) (siamese_body N) st = Some st' ∧
         siamese_inv N (k + Z.of_nat m) st'.
Proof.
  revert k st. induction m as [|m IH]; intros k st Hk Hm Hinv.
  { exists st. split; [done|]. by rewrite Z.add_0_r. }
  rewrite seqZ_cons by lia. cbn [for_each_opt].
  destruct (siamese_body_inv k st) as (st1 & -> & Hinv1); [lia|done|].
  cbn [mbind option_bind].
  destruct (IH (k + 1) st1) as (st' & Hrun & Hinv'); [lia|lia|done|].
  exists st'. split.
  - rewrite <- Hrun. f_equal. f_equal; lia.
  - replace (k + Z.of_nat (S m)) with (k + 1 + Z.of_nat m) by lia. done.
Qed.

(** The Siamese branch returns the square given by the closed form. *)
Lemma generate_custom_square_closed_form :
  ∃ square,
    generate_custom_square N = Some square ∧
    square_shape (Z.to_nat N) square ∧
    ∀ r c, 0 ≤ r < N → 0 ≤ c < N → get_cell square r c = Some (entry N r c).
Proof.
  pose proof N_pos.
  destruct (siamese_loop_inv (Z.to_nat (N * N)) 0 (blank_square N, 0, N `div` 2))
    as ([[square i] j] & Hrun & Hs & Hcells & _); [lia|lia|apply siamese_inv_init|].
  exists square. split_and!; [|done|].
  - unfold generate_custom_square.
    assert (N `mod` 2 = 1) as Hodd.
    { subst N. Z.to_euclidean_division_equations; lia. }
    rewrite Hodd. cbn [Z.eqb Pos.eqb]. unfold range_from.
    replace (N * N + 1 - 1) with (Z.of_nat (Z.to_nat (N * N))) by lia.
    change (seqZ 1) with (seqZ (0 + 1)). by rewrite Hrun.
  - intros r c Hr Hc. rewrite Hcells by done.
    pose proof (entry_range r c). by rewrite decide_True by lia.
Qed.


(** The square is symmetric about its centre: opposite cells add up to
    [N * N + 1]. *)
Lemma block_opposite r c : block N (N - 1 - r) (N - 1 - c) = N - 1 - block N r c.
Proof.
  pose proof (block_range r c). unfold block in *. rewrite half in *.
  rewrite <- (Z.mod_small (N - 1 - (r + c - h) `mod` N) N) by lia. mod_eq 0.
Qed.

Lemma offset_opposite r c : offset N (N - 1 - r) (N - 1 - c) = N - 1 - offset N r c.
Proof.
  pose proof (offset_range r c). unfold offset in *. rewrite block_opposite.
  rewrite <- (Z.mod_small (N - 1 - (2 * block N r c - r) `mod` N) N) by lia.
  mod_eq 0.
Qed.

Lemma entry_opposite r c : entry N (N - 1 - r) (N - 1 - c) = N * N + 1 - entry N r c.
Proof. unfold entry. rewrite block_opposite, offset_opposite. ring. Qed.

(** Residues: a shift is injective on [0 .. N-1], and so is doubling
    followed by a shift, [N] being odd. *)
Lemma small_multiple d : - N < d < N → d `mod` N = 0 → d = 0.
Proof.
  intros Hd Hm. apply Z.mod_divide in Hm; [|lia]. destruct Hm as [q ->].
  assert (q = 0) as -> by nia. lia.
Qed.

Lemma mod_eq_diff x y : x `mod` N = y `mod` N → (x - y) `mod` N = 0.
Proof.
  intros E. pose proof N_pos. rewrite Zminus_mod, E, Z.sub_diag.
  apply Z.mod_0_l. lia.
Qed.

Lemma shift_injective e x y :
  0 ≤ x < N → 0 ≤ y < N → (x + e) `mod` N = (y + e) `mod` N → x = y.
Proof.
  intros Hx Hy E. apply mod_eq_diff in E.
  replace (x + e - (y + e)) with (x - y) in E by ring.
  apply small_multiple in E; lia.
Qed.

Lemma double_injective e x y :
  0 ≤ x < N → 0 ≤ y < N → (2 * x + e) `mod` N = (2 * y + e) `mod` N → x = y.
Proof.
  intros Hx Hy E. apply mod_eq_diff in E.
  replace (2 * x + e - (2 * y + e)) with (2 * (x - y)) in E by ring.
  assert ((x - y) `mod` N = 0) as E'; [|apply small_multiple in E'; lia].
  apply Z.mod_divide in E; [|lia]. destruct E as [q Hq].
  apply Z.mod_divide; [lia|].
  exists (x - y - q * h). nia.
Qed.

Lemma shift_permutation e :
  (λ x, (x + e) `mod` N) <$> seqZ 0 N ≡ₚ seqZ 0 N.
Proof.
  pose proof N_pos. apply injective_permutation.
  - intros x _. apply Z.mod_pos_bound. lia.
  - intros x y. apply shift_injective.
Qed.

Lemma double_permutation e :
  (λ x, (2 * x + e) `mod` N) <$> seqZ 0 N ≡ₚ seqZ 0 N.
Proof.
  pose proof N_pos. apply injective_permutation.
  - intros x _. apply Z.mod_pos_bound. lia.
  - intros x y. apply double_injective.
Qed.

Lemma triangle : 2 * sum (seqZ 0 N) = N * (N - 1).
Proof.
  pose proof N_pos. rewrite <- (Z2Nat.id N) at 1 by lia.
  rewrite sum_seqZ. rewrite Z2Nat.id by lia. done.
Qed.

Lemma magic_constant_half S : 2 * S = N * (N * N + 1) → S = magic_constant N.
Proof.
  intros HS. unfold magic_constant.
  replace (N * (N ^ 2 + 1)) with (S * 2) by lia.
  by rewrite Z.div_mul.
Qed.

(** Sum of a line of cells whose blocks and whose offsets both run through
    all residues. *)
Lemma line_sum (f g : Z → Z) :
  f <$> seqZ 0 N ≡ₚ seqZ 0 N → g <$> seqZ 0 N ≡ₚ seqZ 0 N →
  sum ((λ x, f x * N + g x + 1) <$> seqZ 0 N) = magic_constant N.
Proof.
  intros Hf Hg. pose proof N_pos. apply magic_constant_half.
  rewrite sum_block_offset, length_seqZ, Z2Nat.id by lia.
  rewrite (sum_permutation _ _ Hf), (sum_permutation _ _ Hg).
  pose proof triangle. nia.
Qed.

Lemma row_sum r : sum ((λ c, entry N r c) <$> seqZ 0 N) = magic_constant N.
Proof.
  apply (line_sum (block N r) (offset N r)).
  - rewrite (list_fmap_ext _ (λ x, (x + (r - h)) `mod` N));
      [apply shift_permutation|].
    intros _ c _. unfold block. rewrite half. f_equal. ring.
  - rewrite (list_fmap_ext _ (λ x, (2 * x + (r - 2 * h)) `mod` N));
      [apply double_permutation|].
    intros _ c _. unfold offset, block. rewrite half. mod_eq 0.
Qed.

Lemma column_sum c : sum ((λ r, entry N r c) <$> seqZ 0 N) = magic_constant N.
Proof.
  apply (line_sum (λ r, block N r c) (λ r, offset N r c)).
  - rewrite (list_fmap_ext _ (λ x, (x + (c - h)) `mod` N));
      [apply shift_permutation|].
    intros _ r _. unfold block. rewrite half. f_equal. ring.
  - rewrite (list_fmap_ext _ (λ x, (x + (2 * c - 2 * h)) `mod` N));
      [apply shift_permutation|].
    intros _ r _. unfold offset, block. rewrite half. mod_eq 0.
Qed.

Lemma main_diagonal_sum : sum ((λ r, entry N r r) <$> seqZ 0 N) = magic_constant N.
Proof.
  pose proof N_pos. apply magic_constant_half.
  rewrite (sum_symmetric _ (N * N + 1)); [ring|lia|].
  intros r _. apply entry_opposite.
Qed.

Lemma anti_diagonal_sum :
  sum ((λ r, entry N r (N - 1 - r)) <$> seqZ 0 N) = magic_constant N.
Proof.
  pose proof N_pos. apply magic_constant_half.
  rewrite (sum_symmetric _ (N * N + 1)); [ring|lia|].
  intros r _. apply entry_opposite.
Qed.


Lemma closed_form_square_eq square :
  square_shape (Z.to_nat N) square →
  (∀ r c, 0 ≤ r < N → 0 ≤ c < N → get_cell square r c = Some (entry N r c)) →
  square = (closed_form_square N).
Proof.
  intros Hs Hcells. pose proof N_pos. unfold closed_form_square.
  apply list_eq; intros r. rewrite list_lookup_fmap.
  destruct (decide (Z.of_nat r < N)) as [Hr|Hr].
  - rewrite lookup_seqZ_lt by done. cbn [fmap option_fmap option_map].
    destruct (shape_row _ square r Hs) as (row & Hrow & Hlen); [lia|].
    rewrite Hrow. f_equal. apply list_eq; intros c. rewrite list_lookup_fmap.
    destruct (decide (Z.of_nat c < N)) as [Hc|Hc].
    + rewrite lookup_seqZ_lt by done. cbn [fmap option_fmap option_map].
      specialize (Hcells (Z.of_nat r) (Z.of_nat c)).
      rewrite (get_cell_in_range (Z.to_nat N)) in Hcells by (done || lia).
      rewrite !Nat2Z.id, Hrow in Hcells. rewrite Z.add_0_l. apply Hcells; lia.
    + rewrite lookup_seqZ_ge by lia. by rewrite lookup_ge_None_2 by lia.
  - rewrite lookup_seqZ_ge by lia. destruct Hs as [Hh _].
    by rewrite lookup_ge_None_2 by lia.
Qed.

Lemma closed_form_square_lookup (r : nat) :
  Z.of_nat r < N →
  (closed_form_square N) !! r = Some ((λ c, entry N (Z.of_nat r) c) <$> seqZ 0 N).
Proof.
  intros Hr. unfold closed_form_square.
  rewrite list_lookup_fmap, lookup_seqZ_lt by done. by rewrite Z.add_0_l.
Qed.

Lemma closed_form_square_shape : square_shape (Z.to_nat N) (closed_form_square N).
Proof.
  unfold closed_form_square. split; [by rewrite length_fmap, length_seqZ|].
  apply Forall_fmap, Forall_true. intros r. simpl.
  by rewrite length_fmap, length_seqZ.
Qed.

Lemma closed_form_column (j : nat) :
  Z.of_nat j < N →
  column j (closed_form_square N) = (λ r, entry N r (Z.of_nat j)) <$> seqZ 0 N.
Proof.
  intros Hj. unfold column, closed_form_square.
  rewrite <- list_fmap_compose. apply list_fmap_ext. intros _ r _. simpl.
  rewrite list_lookup_fmap, lookup_seqZ_lt by done. by rewrite Z.add_0_l.
Qed.

Lemma closed_form_main_diagonal :
  main_diagonal (closed_form_square N) = (λ r, entry N r r) <$> seqZ 0 N.
Proof.
  unfold main_diagonal. apply list_eq; intros i.
  rewrite list_lookup_imap, list_lookup_fmap.
  destruct (decide (Z.of_nat i < N)) as [Hi|Hi].
  - rewrite closed_form_square_lookup, lookup_seqZ_lt by done.
    cbn [fmap option_fmap option_map].
    rewrite list_lookup_fmap, lookup_seqZ_lt by done. by rewrite Z.add_0_l.
  - rewrite lookup_seqZ_ge by lia.
    rewrite lookup_ge_None_2; [done|].
    destruct closed_form_square_shape as [-> _]. lia.
Qed.

Lemma closed_form_anti_diagonal :
  anti_diagonal (closed_form_square N) = (λ r, entry N r (N - 1 - r)) <$> seqZ 0 N.
Proof.
  unfold anti_diagonal. apply list_eq; intros i.
  rewrite list_lookup_imap, list_lookup_fmap.
  destruct closed_form_square_shape as [Hlen _].
  destruct (decide (Z.of_nat i < N)) as [Hi|Hi].
  - rewrite closed_form_square_lookup, lookup_seqZ_lt by done.
    cbn [fmap option_fmap option_map].
    rewrite list_lookup_fmap, lookup_seqZ_lt by lia.
    cbn [fmap option_fmap option_map default from_option]. unfold id.
    do 2 f_equal; lia.
  - rewrite lookup_seqZ_ge by lia.
    rewrite lookup_ge_None_2; [done|]. lia.
Qed.

(** Every number of [1 .. N*N] occurs in the square. *)
Lemma closed_form_square_covers x :
  1 ≤ x ≤ N * N → x ∈ concat (closed_form_square N).
Proof.
  intros Hx. pose proof N_pos.
  pose proof (row_of_range (x - 1)) as Hr. pose proof (col_of_range (x - 1)) as Hc.
  apply list_elem_of_In, in_concat.
  exists ((λ c, entry N (row_of N (x - 1)) c) <$> seqZ 0 N). split.
  - apply list_elem_of_In, list_elem_of_lookup.
    exists (Z.to_nat (row_of N (x - 1))).
    rewrite closed_form_square_lookup by lia. by rewrite Z2Nat.id by lia.
  - apply list_elem_of_In, list_elem_of_fmap.
    exists (col_of N (x - 1)). split.
    + rewrite entry_at_pos by lia. lia.
    + apply elem_of_seqZ. lia.
Qed.

Lemma closed_form_square_magic : is_magic (Z.to_nat N) (closed_form_square N).
Proof.
  pose proof N_pos. destruct closed_form_square_shape as [Hh Hw].
  split; rewrite ?Z2Nat.id by lia; try done.
  - symmetry. apply submseteq_length_Permutation.
    + apply NoDup_submseteq; [apply NoDup_seqZ|].
      intros x Hx. apply elem_of_range_from in Hx.
      apply closed_form_square_covers. lia.
    + rewrite (length_concat_uniform (Z.to_nat N)), Hh by done.
      rewrite length_range_from. lia.
  - unfold closed_form_square. apply Forall_fmap, Forall_true. intros r.
    apply row_sum.
  - intros j Hj. rewrite closed_form_column by lia. apply column_sum.
  - rewrite closed_form_main_diagonal. apply main_diagonal_sum.
  - rewrite closed_form_anti_diagonal. apply anti_diagonal_sum.
Qed.

(** For odd [N] the construction succeeds and returns a magic square. *)
Lemma generate_odd_magic :
  ∃ square,
    generate_custom_square N = Some square ∧ is_magic (Z.to_nat N) square.
Proof.
  destruct generate_custom_square_closed_form as (square & Hgen & Hs & Hcells).
  exists square. split; [done|].
  rewrite (closed_form_square_eq square Hs Hcells).
  apply closed_form_square_magic.
Qed.

End Order.

(** C7: for every odd [N >= 3], [generate_custom_square(N)] returns an
    [N] by [N] square that holds each of [1 .. N*N] exactly once and whose
    rows, columns and two main diagonals all sum to [N * (N*N + 1) / 2].
    For [N = 3] it is the Lo Shu square of [generate_saturn_square] with
    its rows in reverse order (a reflection), all sums being 15; for
    [N = 5] the constant is 65 and for [N = 7] it is 175. *)
Theorem generate_custom_square_magic :
  (∀ size, 3 ≤ size → size `mod` 2 = 1 →
     ∃ square,
       generate_custom_square size = Some square ∧
       is_magic (Z.to_nat size) square) ∧
  generate_custom_square 3 = Some (reverse (generate_saturn_square ())) ∧
  magic_constant 3 = 15 ∧ magic_constant 5 = 65 ∧ magic_constant 7 = 175.
Proof.
  split; [|by vm_compute].
  intros size Hsize Hodd.
  apply (generate_odd_magic size (size `div` 2)).
  - Z.to_euclidean_division_equations; lia.
  - Z.to_euclidean_division_equations; lia.
Qed.

Lemma generate_custom_square_magic_witness :
  ∃ square,
    generate_custom_square 5 = Some square ∧ is_magic 5 square.
Proof.
  destruct generate_custom_square_magic as [H _].
  apply (H 5); [lia|reflexivity].
Defined.

End Siamese.

(** ** Planetary hours *)

Module HourClaims.
Import PlanetaryHourCalculator.

Lemma weekday_cases (w : Z) :
  0 ≤ w ≤ 6 → w = 0 ∨ w = 1 ∨ w = 2 ∨ w = 3 ∨ w = 4 ∨ w = 5 ∨ w = 6.
Proof. lia. Qed.

(** Case analysis on a weekday known to lie in [0 .. 6]. *)
Ltac each_weekday H :=
  destruct (weekday_cases _ H) as [E|[E|[E|[E|[E|[E|E]]]]]]; rewrite E in *;
  clear E.

(** For every weekday the schedule is computed without an exception and
    has 24 entries: the day hours 1 to 12, then the night hours 1 to 12,
    the first of them ruled by the planet of the weekday. *)
Theorem schedule_shape (weekday : Z) :
  0 ≤ weekday ≤ 6 →
  ∃ schedule,
    get_planetary_hour_schedule weekday = Some schedule ∧
    length schedule = 24%nat ∧
    hour <$> schedule = range_from 1 13 ++ range_from 1 13 ∧
    type <$> schedule = replicate 12 "day" ++ replicate 12 "night" ∧
    planet <$> head schedule = day_planets !! Z.to_nat weekday.
Proof.
  intros H. each_weekday H; eexists; (split; [by vm_compute|]); by vm_compute.
Qed.

Lemma schedule_shape_witness :
  ∃ schedule,
    get_planetary_hour_schedule 2 = Some schedule ∧
    length schedule = 24%nat ∧
    hour <$> schedule = range_from 1 13 ++ range_from 1 13 ∧
    type <$> schedule = replicate 12 "day" ++ replicate 12 "night" ∧
    planet <$> head schedule = day_planets !! 2%nat.
Proof. apply (schedule_shape 2). lia. Defined.

(** Walking through a schedule, each hour is ruled by the planet that
    follows the ruler of the hour before in the Chaldean order, also from
    the twelfth day hour to the first night hour. *)
Theorem schedule_succession (weekday : Z) (schedule : list hour_entry)
    (k : nat) (h h' : hour_entry) :
  0 ≤ weekday ≤ 6 →
  get_planetary_hour_schedule weekday = Some schedule →
  schedule !! k = Some h → schedule !! S k = Some h' →
  chaldean_next (planet h) = Some (planet h').
Proof.
  intros H Hs Hk Hk'.
  assert (Hlt : (k < 23)%nat).
  { destruct (schedule_shape weekday H) as (s & Hs' & Hlen & _).
    rewrite Hs in Hs'. injection Hs' as <-.
    apply lookup_lt_Some in Hk'. lia. }
  each_weekday H; vm_compute in Hs; injection Hs as <-;
    do 23 (destruct k as [|k];
           [injection Hk as <-; injection Hk' as <-; by vm_compute|]);
    lia.
Qed.

Lemma schedule_succession_witness :
  chaldean_next "Saturn" = Some "Jupiter".
Proof.
  destruct (get_planetary_hour_schedule 0) as [schedule|] eqn:Hs;
    [|by vm_compute in Hs].
  pose proof Hs as Hs'. vm_compute in Hs'. injection Hs' as Hs'.
  apply (schedule_succession 0 schedule 11
           {| hour := 12; planet := "Saturn"; type := "day" |}
           {| hour := 1; planet := "Jupiter"; type := "night" |});
    [lia|exact Hs|by rewrite <- Hs'..].
Defined.

(** The hour that would follow the last night hour of a day is ruled by
    the planet of the next weekday: the schedules of consecutive days
    continue one another. *)
Theorem schedule_next_day (weekday : Z) (schedule schedule' : list hour_entry) :
  0 ≤ weekday ≤ 6 →
  get_planetary_hour_schedule weekday = Some schedule →
  get_planetary_hour_schedule ((weekday + 1) `mod` 7) = Some schedule' →
  ∃ h h',
    last schedule = Some h ∧ head schedule' = Some h' ∧
    chaldean_next (planet h) = Some (planet h').
Proof.
  intros H Hs Hs'.
  each_weekday H; vm_compute in Hs, Hs';
    injection Hs as <-; injection Hs' as <-; eexists _, _; by vm_compute.
Qed.

Lemma schedule_next_day_witness :
  ∃ schedule schedule' h h',
    get_planetary_hour_schedule 6 = Some schedule ∧
    get_planetary_hour_schedule 0 = Some schedule' ∧
    last schedule = Some h ∧ head schedule' = Some h' ∧
    chaldean_next (planet h) = Some (planet h').
Proof.
  destruct (get_planetary_hour_schedule 6) as [schedule|] eqn:Hs;
    [|by vm_compute in Hs].
  destruct (get_planetary_hour_schedule 0) as [schedule'|] eqn:Hs';
    [|by vm_compute in Hs'].
  destruct (schedule_next_day 6 schedule schedule') as (h & h' & Hh);
    [lia|exact Hs|exact Hs'|].
  by exists schedule, schedule', h, h'.
Defined.

(** The hours that match a planet of the Chaldean order. *)
Lemma optimal_hours_head (weekday : Z) (schedule : list hour_entry)
    (planet_name : string) :
  0 ≤ weekday ≤ 6 →
  get_planetary_hour_schedule weekday = Some schedule →
  planet_name ∈ PLANETARY_HOURS →
  ∃ h rest,
    optimal_hours schedule planet_name = h :: rest ∧
    planet h = planet_name ∧ type h = "day" ∧ 1 ≤ hour h ≤ 7 ∧
    (2 ≤ length rest ≤ 3)%nat.
Proof.
  intros H Hs Hp.
  unfold PLANETARY_HOURS in Hp.
  repeat (apply elem_of_cons in Hp as [->|Hp]); [..|by apply elem_of_nil in Hp];
    each_weekday H; vm_compute in Hs; injection Hs as <-;
    eexists _, _; (split; [by vm_compute|]);
    split_and!; try reflexivity; simpl; lia.
Qed.

(** Every planet of the Chaldean order rules one of the first seven day
    hours of every day, so the list of hours matching a planet is never
    empty and starts with a day hour; it has three or four entries. *)
Theorem optimal_hours_found (weekday : Z) (schedule : list hour_entry)
    (planet_name : string) :
  0 ≤ weekday ≤ 6 →
  get_planetary_hour_schedule weekday = Some schedule →
  planet_name ∈ PLANETARY_HOURS →
  ∃ h rest,
    optimal_hours schedule planet_name = h :: rest ∧
    planet h = planet_name ∧ type h = "day" ∧ 1 ≤ hour h ≤ 7 ∧
    (2 ≤ length rest ≤ 3)%nat.
Proof. apply optimal_hours_head. Qed.

Lemma optimal_hours_found_witness :
  ∃ schedule h rest,
    get_planetary_hour_schedule 0 = Some schedule ∧
    optimal_hours schedule "Saturn" = h :: rest ∧
    planet h = "Saturn" ∧ type h = "day" ∧ 1 ≤ hour h ≤ 7 ∧
    (2 ≤ length rest ≤ 3)%nat.
Proof.
  destruct (get_planetary_hour_schedule 0) as [schedule|] eqn:Hs;
    [|by vm_compute in Hs].
  destruct (optimal_hours_found 0 schedule "Saturn") as (h & rest & Hh);
    [lia|exact Hs|by vm_compute; left|].
  by exists schedule, h, rest.
Defined.

End HourClaims.

(** ** Squares and planets of a geomantic figure *)

Module GeomanticClaims.
Import MagicSquareGenerator QuadrupleGoddessSystem PlanetaryHourCalculator.
Import HourClaims.

Lemma fixed_squares_magic : Forall (λ p, is_magic p.1 p.2) fixed_squares.
Proof.
  unfold fixed_squares.
  repeat (apply Forall_cons; split;
          [apply Magic.magic_check_true; vm_compute; reflexivity|]).
  constructor.
Qed.

Lemma square_for_geomantic_fixed (geomantic : gmap string pyval) :
  ∃ n, (n, get_magic_square_for_geomantic geomantic) ∈ fixed_squares.
Proof.
  unfold get_magic_square_for_geomantic, fixed_squares.
  repeat case_decide; eexists; repeat (first [apply list_elem_of_here|apply list_elem_of_further]).
Qed.




(** Whatever the record of the geomantic figure, the square chosen for it
    is one of the seven fixed squares, hence a magic square of an order
    between 3 and 9.  A record without a "planet" gets the 9 by 9 Moon
    square; a record whose planet is none of the seven names gets the 3 by
    3 Saturn square. *)
Theorem square_for_geomantic_magic (geomantic : gmap string pyval) :
  (∃ n, (3 ≤ n ≤ 9)%nat ∧
        is_magic n (get_magic_square_for_geomantic geomantic)) ∧
  (geomantic !! "planet" = None →
   get_magic_square_for_geomantic geomantic = generate_moon_square ()) ∧
  (∀ v, geomantic !! "planet" = Some v → v ∉ PyStr <$> planet_names →
        get_magic_square_for_geomantic geomantic = generate_saturn_square ()).
Proof.
  split_and!.
  - destruct (square_for_geomantic_fixed geomantic) as [n Hn].
    exists n. pose proof fixed_squares_magic as Hall.
    rewrite Forall_forall in Hall. specialize (Hall _ Hn). split; [|done].
    unfold fixed_squares in Hn.
    repeat (apply elem_of_cons in Hn as [[= -> _]|Hn]);
      [..|by apply elem_of_nil in Hn]; lia.
  - intros Hnone. unfold get_magic_square_for_geomantic, dict_get.
    by rewrite Hnone.
  - intros v Hv Hnot. unfold get_magic_square_for_geomantic, dict_get.
    rewrite Hv. cbn [default from_option]. unfold id.
    unfold planet_names in Hnot. cbn [fmap list_fmap] in Hnot.
    repeat (apply not_elem_of_cons in Hnot as [? Hnot]).
    by rewrite !decide_False by done.
Qed.

Lemma square_for_geomantic_magic_witness :
  get_magic_square_for_geomantic {[ "planet" := PyStr "Pluto" ]}
    = generate_saturn_square ().
Proof.
  destruct (square_for_geomantic_magic {[ "planet" := PyStr "Pluto" ]})
    as (_ & _ & H).
  apply (H (PyStr "Pluto")); [reflexivity|].
  unfold planet_names. cbn [fmap list_fmap].
  repeat (apply not_elem_of_cons; split; [discriminate|]). apply not_elem_of_nil.
Defined.

(** The chain of comparisons of [get_magic_square_for_geomantic] and the
    table of [get_square_by_planet] agree: for a record whose planet is a
    string, both give the same square, whatever the string. *)
Theorem square_for_geomantic_by_planet (geomantic : gmap string pyval)
    (planet_name : string) (size : option Z) :
  geomantic !! "planet" = Some (PyStr planet_name) →
  get_magic_square_for_geomantic geomantic
    = (get_square_by_planet planet_name size).1.
Proof.
  intros Hp. unfold get_magic_square_for_geomantic, dict_get. rewrite Hp.
  cbn [default from_option]. unfold id.
  destruct (decide (planet_name ∈ planet_names)) as [Hin|Hnot].
  - unfold planet_names in Hin.
    repeat (apply elem_of_cons in Hin as [->|Hin]);
      [..|by apply elem_of_nil in Hin]; reflexivity.
  - unfold get_square_by_planet.
    assert (planet_squares !! planet_name = None) as ->.
    { apply not_elem_of_list_to_map_1. exact Hnot. }
    unfold planet_names in Hnot.
    repeat (apply not_elem_of_cons in Hnot as [? Hnot]).
    by rewrite !decide_False by congruence.
Qed.

Lemma square_for_geomantic_by_planet_witness :
  get_magic_square_for_geomantic {[ "planet" := PyStr "Venus" ]}
    = (get_square_by_planet "Venus" None).1.
Proof. by apply square_for_geomantic_by_planet. Defined.



End GeomanticClaims.

(** ** The tables of trigram symbols *)

Module TrigramTableClaims.
Import IChingCaster HermeticSynthesis TrigramClaims.

(** Both symbols that [get_trigram_symbols] returns for a binary key are
    known to all the tables keyed by symbol: each has a name, an essence
    and an Ogdoad correspondence, none of the look-ups falls back to its
    default, and the combined reading is either an entry of the table of
    interactions or the sentence built from the two essences. *)
Theorem trigram_tables_cover (binary_str : string) :
  is_binary_key binary_str →
  let lower := (get_trigram_symbols binary_str).1 in
  let upper := (get_trigram_symbols binary_str).2 in
  get_trigram_name lower ≠ "Unknown" ∧
  get_trigram_name upper ≠ "Unknown" ∧
  get_trigram_essence lower ≠ "Unknown trigram" ∧
  get_trigram_essence upper ≠ "Unknown trigram" ∧
  get_ogdoad_correspondence lower ≠ "Unified principle" ∧
  get_ogdoad_correspondence upper ≠ "Unified principle" ∧
  (trigram_interactions !! (lower, upper)
     = Some (analyze_trigram_combination lower upper) ∨
   analyze_trigram_combination lower upper
     = get_trigram_essence lower +:+ " (foundation) supporting "
         +:+ get_trigram_essence upper +:+ " (expression)").
Proof.
  intros [Hlen Hall].
  destruct binary_str as [|c1 [|c2 [|c3 [|c4 [|c5 [|c6 [|c7 rest]]]]]]];
    try discriminate Hlen.
  cbn in Hall.
  repeat match goal with
         | H : Forall _ (_ :: _) |- _ => apply Forall_cons in H as [? H]
         end.
  repeat match goal with
         | H : _ = _ ∨ _ = _ |- _ => destruct H as [H|H]; rewrite H
         end;
    vm_compute; split_and!; try discriminate; auto.
Qed.

Lemma trigram_tables_cover_witness :
  get_trigram_essence (get_trigram_symbols "101000").1 ≠ "Unknown trigram".
Proof.
  destruct (trigram_tables_cover "101000") as (_ & _ & H & _); [|exact H].
  split; [reflexivity|]. cbn.
  repeat (apply Forall_cons; split; [auto|]). constructor.
Defined.

End TrigramTableClaims.

(** ** Numerological reduction *)

Module ReduceClaims.
Import HermeticSynthesis.











Lemma meanings_lookup (num : Z) (meaning : string) :
  meanings !! num = Some meaning → 1 ≤ num ≤ 9.
Proof.
  intros H. apply elem_of_list_to_map_2 in H.
  repeat (apply elem_of_cons in H as [[= -> ->]|H]);
    [..|by apply elem_of_nil in H]; lia.
Qed.






End ReduceClaims.

(** ** The even branch and the edge sizes of [generate_custom_square] *)

Module EvenSquare.
Import MagicSquareGenerator QuadrupleGoddessSystem Siamese.

(** A matrix is determined by its shape and its cells. *)
Lemma square_cells_eq (n : nat) (f : Z → Z → Z) (square : list (list Z)) :
  square_shape n square →
  (∀ r c, 0 ≤ r < Z.of_nat n → 0 ≤ c < Z.of_nat n →
     get_cell square r c = Some (f r c)) →
  square = (λ r, (λ c, f r c) <$> seqZ 0 (Z.of_nat n)) <$> seqZ 0 (Z.of_nat n).
Proof.
  intros Hs Hcells. apply list_eq; intros r. rewrite list_lookup_fmap.
  destruct (decide (r < n)%nat) as [Hr|Hr].
  - rewrite lookup_seqZ_lt by lia. cbn [fmap option_fmap option_map].
    destruct (shape_row _ square r Hs) as (row & Hrow & Hlen); [lia|].
    rewrite Hrow. f_equal. apply list_eq; intros c. rewrite list_lookup_fmap.
    destruct (decide (c < n)%nat) as [Hc|Hc].
    + rewrite lookup_seqZ_lt by lia. cbn [fmap option_fmap option_map].
      specialize (Hcells (Z.of_nat r) (Z.of_nat c)).
      rewrite (get_cell_in_range n) in Hcells by (done || lia).
      rewrite !Nat2Z.id, Hrow in Hcells. rewrite Z.add_0_l. apply Hcells; lia.
    + rewrite lookup_seqZ_ge by lia. by rewrite lookup_ge_None_2 by lia.
  - rewrite lookup_seqZ_ge by lia. destruct Hs as [Hh _].
    by rewrite lookup_ge_None_2 by lia.
Qed.

Lemma fill_body_inv (n : nat) (i j : Z) st :
  0 ≤ i < Z.of_nat n → 0 ≤ j < Z.of_nat n →
  fill_inv n (i * Z.of_nat n + j) st →
  ∃ st', fill_body i j st = Some st' ∧ fill_inv n (i * Z.of_nat n + j + 1) st'.
Proof.
  intros Hi Hj. destruct st as [square num]. intros (Hs & Hcells & ->).
  destruct (set_cell_in_range n square i j (i * Z.of_nat n + j + 1) Hs Hi Hj)
    as (square' & Hset & Hs' & Hget).
  exists (square', i * Z.of_nat n + j + 1 + 1). split.
  - unfold fill_body. by rewrite Hset.
  - split_and!; [done| |done].
    intros r c Hr Hc. rewrite Hget by done.
    destruct (decide (r = i ∧ c = j)) as [[-> ->]|Hne].
    + by rewrite decide_True by lia.
    + rewrite Hcells by done.
      assert (r * Z.of_nat n + c ≠ i * Z.of_nat n + j).
      { destruct (decide (r = i)) as [->|Hri]; [lia|nia]. }
      repeat case_decide; try done; lia.
Qed.

(** The inner loop fills the rest of row [i]. *)
Lemma fill_row_inv (n : nat) (i : Z) (m : nat) : ∀ (j : nat) st,
  0 ≤ i < Z.of_nat n → (j + m ≤ n)%nat →
  fill_inv n (i * Z.of_nat n + Z.of_nat j) st →
  ∃ st', for_each_opt (Z.of_nat <$> seq j m) (fill_body i) st = Some st' ∧
         fill_inv n (i * Z.of_nat n + Z.of_nat (j + m)) st'.
Proof.
  induction m as [|m IH]; intros j st Hi Hm Hinv.
  { exists st. split; [done|]. by rewrite Nat.add_0_r. }
  cbn [seq fmap list_fmap for_each_opt].
  destruct (fill_body_inv n i (Z.of_nat j) st) as (st1 & -> & Hinv1);
    [lia|lia|done|].
  cbn [mbind option_bind].
  destruct (IH (S j) st1) as (st' & Hrun & Hinv'); [lia|lia| |].
  { by replace (Z.of_nat (S j)) with (Z.of_nat j + 1) by lia; rewrite Z.add_assoc. }
  exists st'. split; [done|].
  by replace (j + S m)%nat with (S j + m)%nat by lia.
Qed.

(** The outer loop fills the rows [i], [i + 1], ... one after the other. *)
Lemma fill_rows_inv (n : nat) (m : nat) : ∀ (i : nat) st,
  (i + m ≤ n)%nat →
  fill_inv n (Z.of_nat i * Z.of_nat n) st →
  ∃ st',
    for_each_opt (Z.of_nat <$> seq i m)
      (λ i, for_each_opt (range n) (fill_body i)) st = Some st' ∧
    fill_inv n (Z.of_nat (i + m) * Z.of_nat n) st'.
Proof.
  induction m as [|m IH]; intros i st Hm Hinv.
  { exists st. split; [done|]. by rewrite Nat.add_0_r. }
  cbn [seq fmap list_fmap for_each_opt].
  destruct (fill_row_inv n (Z.of_nat i) n 0%nat st) as (st1 & Hrow & Hinv1);
    [lia|lia|by rewrite Z.add_0_r|].
  change (Z.of_nat <$> seq 0 n) with (range n) in Hrow.
  rewrite Hrow. cbn [mbind option_bind].
  destruct (IH (S i) st1) as (st' & Hrun & Hinv'); [lia| |].
  { replace (Z.of_nat (S i) * Z.of_nat n)
      with (Z.of_nat i * Z.of_nat n + Z.of_nat (0 + n)) by lia. done. }
  exists st'. split; [done|].
  by replace (i + S m)%nat with (S i + m)%nat by lia.
Qed.

Lemma fill_inv_init (size : Z) :
  fill_inv (Z.to_nat size) 0 (blank_square size, 1).
Proof.
  split_and!; [apply blank_square_shape| |done].
  intros r c Hr Hc. rewrite blank_square_cell by lia.
  by rewrite decide_False by nia.
Qed.

Lemma row_major_square_nat (size : Z) :
  row_major_square (Z.of_nat (Z.to_nat size)) = row_major_square size.
Proof.
  destruct (Z.le_gt_cases 0 size) as [H|H]; [by rewrite Z2Nat.id|].
  unfold row_major_square. by rewrite !seqZ_nil by lia.
Qed.

(** The even branch raises no exception and returns the numbers in reading
    order. *)
Lemma generate_even_row_major (size : Z) :
  size `mod` 2 = 0 →
  generate_custom_square size = Some (row_major_square size).
Proof.
  intros Heven. unfold generate_custom_square. rewrite Heven.
  cbn [Z.eqb]. set (n := Z.to_nat size).
  destruct (fill_rows_inv n n 0%nat (blank_square size, 1))
    as ([square num] & Hrun & Hs & Hcells & _);
    [lia|apply fill_inv_init|].
  change (Z.of_nat <$> seq 0 n) with (range n) in Hrun.
  rewrite Hrun. cbn [mbind option_bind]. f_equal.
  rewrite <- row_major_square_nat. fold n.
  apply (square_cells_eq n (λ r c, r * Z.of_nat n + c + 1)); [done|].
  intros r c Hr Hc. rewrite Hcells by done.
  by rewrite decide_True by nia.
Qed.

Lemma row_major_square_shape (n : nat) :
  square_shape n (row_major_square (Z.of_nat n)).
Proof.
  unfold row_major_square. split.
  - rewrite length_fmap, length_seqZ. lia.
  - apply Forall_fmap, Forall_forall. intros r _. cbn.
    rewrite length_fmap, length_seqZ. lia.
Qed.

Lemma row_major_rows (N : Z) (m : nat) :
  concat ((λ r, (λ c, r * N + c + 1) <$> seqZ 0 N) <$> seqZ 0 (Z.of_nat m))
    = seqZ 1 (Z.of_nat m * N).
Proof.
  destruct (Z.le_gt_cases N 0) as [HN|HN].
  { rewrite (seqZ_nil _ (_ * _)) by nia.
    induction m as [|m IH]; [done|].
    rewrite seqZ_S, fmap_app, concat_app, IH. cbn.
    by rewrite seqZ_nil by lia. }
  induction m as [|m IH]; [done|].
  rewrite seqZ_S, fmap_app, concat_app, IH. cbn [fmap list_fmap concat].
  rewrite app_nil_r.
  replace (Z.of_nat (S m) * N) with (Z.of_nat m * N + N) by lia.
  rewrite seqZ_app by nia. f_equal.
  transitivity (Z.add (1 + Z.of_nat m * N) <$> seqZ 0 N).
  - apply list_fmap_ext. intros; lia.
  - rewrite fmap_add_seqZ. f_equal. lia.
Qed.

Lemma row_major_concat (N : Z) :
  0 ≤ N → concat (row_major_square N) = range_from 1 (N * N + 1).
Proof.
  intros HN. unfold row_major_square, range_from.
  pose proof (row_major_rows N (Z.to_nat N)) as H.
  rewrite Z2Nat.id in H by done. rewrite H. f_equal. lia.
Qed.

Lemma sum_shift (a : Z) (l : list Z) :
  sum ((λ c, a + c + 1) <$> l) = (a + 1) * Z.of_nat (length l) + sum l.
Proof.
  induction l as [|x l IH]; [by rewrite Z.mul_0_r|].
  cbn [fmap list_fmap length]. rewrite !sum_cons.
  change (list_fmap Z Z ?h l) with (h <$> l). rewrite IH. lia.
Qed.

(** The first two rows of the square in reading order have different
    sums. *)
Lemma row_major_not_magic (N : Z) (n : nat) :
  2 ≤ N → ¬ is_magic n (row_major_square N).
Proof.
  intros HN [Hh _ _ Hrows _ _ _].
  assert (Hrow : ∀ r : nat, Z.of_nat r < N →
            sum ((λ c, Z.of_nat r * N + c + 1) <$> seqZ 0 N)
              = magic_constant (Z.of_nat n)).
  { intros r Hr. apply (proj1 (Forall_lookup _ _) Hrows r).
    unfold row_major_square. rewrite list_lookup_fmap, lookup_seqZ_lt by done.
    cbn [fmap option_fmap option_map]. by rewrite Z.add_0_l. }
  pose proof (Hrow 0%nat ltac:(lia)) as H0.
  pose proof (Hrow 1%nat ltac:(lia)) as H1.
  rewrite <- H1 in H0.
  rewrite !sum_shift, length_seqZ in H0. nia.
Qed.

(** For an even size the result is not a magic square but the numbers
    [1 .. size * size] in reading order: cell [(r, c)] holds
    [r * size + c + 1]. *)
Theorem even_square_reading_order (size : Z) :
  0 ≤ size → size `mod` 2 = 0 →
  ∃ square,
    generate_custom_square size = Some square ∧
    square_shape (Z.to_nat size) square ∧
    concat square = range_from 1 (size * size + 1) ∧
    ∀ r c, 0 ≤ r < size → 0 ≤ c < size →
      get_cell square r c = Some (r * size + c + 1).
Proof.
  intros Hsize Heven. exists (row_major_square size).
  assert (Hs : square_shape (Z.to_nat size) (row_major_square size)).
  { rewrite <- row_major_square_nat. apply row_major_square_shape. }
  split_and!; [by apply generate_even_row_major|done|
               by apply row_major_concat|].
  intros r c Hr Hc.
  rewrite (get_cell_in_range (Z.to_nat size)) by (done || lia).
  unfold row_major_square. rewrite list_lookup_fmap, lookup_seqZ_lt by lia.
  cbn [fmap option_fmap option_map mbind option_bind].
  rewrite list_lookup_fmap, lookup_seqZ_lt by lia.
  cbn [fmap option_fmap option_map]. f_equal. lia.
Qed.

Lemma even_square_reading_order_witness :
  ∃ square,
    generate_custom_square 4 = Some square ∧
    square_shape (Z.to_nat 4) square ∧
    concat square = range_from 1 (4 * 4 + 1) ∧
    ∀ r c, 0 ≤ r < 4 → 0 ≤ c < 4 →
      get_cell square r c = Some (r * 4 + c + 1).
Proof. apply (even_square_reading_order 4); [lia|reflexivity]. Defined.

(** For every even size from 2 on, [generate_custom_square] returns a
    square that is not magic, of whatever order: its first two rows have
    different sums. *)
Theorem even_square_not_magic (size : Z) :
  2 ≤ size → size `mod` 2 = 0 →
  ∃ square,
    generate_custom_square size = Some square ∧ ∀ n, ¬ is_magic n square.
Proof.
  intros Hsize Heven. exists (row_major_square size).
  split; [by apply generate_even_row_major|].
  intros n. by apply row_major_not_magic.
Qed.

Lemma even_square_not_magic_witness :
  ∃ square,
    generate_custom_square 4 = Some square ∧ ∀ n, ¬ is_magic n square.
Proof. apply (even_square_not_magic 4); [lia|reflexivity]. Defined.

(** Sizes that are not positive: an even one gives the empty square, an
    odd one raises, the first assignment of the Siamese branch indexing
    the empty list of rows. *)
Theorem custom_square_edge_sizes (size : Z) :
  size ≤ 0 →
  (size `mod` 2 = 0 → generate_custom_square size = Some []) ∧
  (size `mod` 2 = 1 → generate_custom_square size = None).
Proof.
  intros Hsize. split; intros Hparity.
  - rewrite generate_even_row_major by done.
    unfold row_major_square. by rewrite seqZ_nil.
  - assert (size ≠ 0) by (by intros ->).
    unfold generate_custom_square. rewrite Hparity. cbn [Z.eqb Pos.eqb].
    unfold range_from. rewrite seqZ_cons by nia. cbn [for_each_opt].
    unfold blank_square. replace (Z.to_nat size) with 0%nat by lia.
    reflexivity.
Qed.

Lemma custom_square_edge_sizes_witness :
  generate_custom_square (-4) = Some [] ∧ generate_custom_square (-3) = None.
Proof.
  split.
  - apply (custom_square_edge_sizes (-4)); [lia|reflexivity].
  - apply (custom_square_edge_sizes (-3)); [lia|reflexivity].
Defined.

End EvenSquare.

(** ** Patterns of binary strings *)

Module PatternClaims.
Import InterpretationDepthSystem.



Lemma length_app (s1 s2 : string) :
  String.length (s1 +:+ s2) = (String.length s1 + String.length s2)%nat.
Proof.
  induction s1 as [|a s1 IH]; [done|].
  change (S (String.length (s1 +:+ s2))
          = S (String.length s1 + String.length s2)).
  by rewrite IH.
Qed.




End PatternClaims.

(** ** Elements of a reading *)

Module ElementClaims.
Import HermeticSynthesis Siamese.

Lemma dict_store_keys {K V} `{EqDecision K} (d : list (K * V)) (k : K) (v : V) :
  (dict_store d k v).*1 = if decide (k ∈ d.*1) then d.*1 else d.*1 ++ [k].
Proof.
  induction d as [|[k' v'] d IH]; cbn [dict_store fmap list_fmap fst].
  - by rewrite decide_False by apply not_elem_of_nil.
  - change (list_fmap (K * V)%type K fst ?l) with (l.*1) in *.
    destruct (decide (k' = k)) as [->|Hne].
    + by rewrite decide_True by apply list_elem_of_here.
    + cbn [fmap list_fmap fst].
      change (list_fmap (K * V)%type K fst ?l) with (l.*1). rewrite IH.
      destruct (decide (k ∈ d.*1)) as [Hin|Hnin].
      * by rewrite decide_True by by apply list_elem_of_further.
      * rewrite decide_False; [done|].
        intros [?|?]%elem_of_cons; congruence.
Qed.

Lemma dict_fold_keys {K V} `{EqDecision K} (items : list (K * V)) :
  ∀ d : list (K * V),
  NoDup d.*1 →
  NoDup (foldl (λ d kv, dict_store d kv.1 kv.2) d items).*1 ∧
  ∀ k, k ∈ (foldl (λ d kv, dict_store d kv.1 kv.2) d items).*1
       ↔ k ∈ d.*1 ∨ k ∈ items.*1.
Proof.
  induction items as [|[k v] items IH]; intros d Hd.
  - split; [done|]. intros k'. cbn. rewrite elem_of_nil. tauto.
  - cbn [foldl fst snd].
    destruct (IH (dict_store d k v)) as [Hnd Hin].
    { rewrite dict_store_keys. case_decide; [done|].
      apply NoDup_app. split_and!; [done| |apply NoDup_singleton].
      intros x Hx ->%list_elem_of_singleton. done. }
    split; [done|]. intros k'. rewrite Hin, dict_store_keys.
    cbn [fmap list_fmap fst]. rewrite elem_of_cons.
    case_decide as Hk.
    + split; [tauto|]. intros [?|[->|?]]; tauto.
    + rewrite elem_of_app, list_elem_of_singleton. tauto.
Qed.

(** The keys of a dictionary display are the keys of its items, each
    once. *)
Lemma dict_display_keys {K V} `{EqDecision K} (items : list (K * V)) :
  NoDup (dict_display items).*1 ∧
  ∀ k, k ∈ (dict_display items).*1 ↔ k ∈ items.*1.
Proof.
  destruct (dict_fold_keys items []) as [Hnd Hin]; [constructor|].
  split; [done|]. intros k. unfold dict_display. rewrite Hin.
  cbn. rewrite elem_of_nil. tauto.
Qed.

Lemma dict_display_keys_perm {K V} `{EqDecision K} (items items' : list (K * V)) :
  items.*1 ≡ₚ items'.*1 → (dict_display items).*1 ≡ₚ (dict_display items').*1.
Proof.
  intros Hp.
  destruct (dict_display_keys items) as [Hnd Hin].
  destruct (dict_display_keys items') as [Hnd' Hin'].
  apply (list.NoDup_Permutation _ _ Hnd Hnd').
  intros k. rewrite Hin, Hin'. by rewrite Hp.
Qed.

Lemma sum_ones {A} (l : list A) : sum ((λ _, 1) <$> l) = Z.of_nat (length l).
Proof.
  induction l as [|x l IH]; [done|].
  cbn [fmap list_fmap length]. rewrite sum_cons.
  change (list_fmap A Z ?h l) with (h <$> l). rewrite IH. lia.
Qed.

Lemma element_count_length (name : string) (elements : list (pyval * Z)) :
  element_count name elements
    = Z.of_nat (length (filter (λ e, contains name (py_str e)) elements.*1)).
Proof. apply sum_ones. Qed.

Lemma element_count_perm (name : string) (items items' : list (pyval * Z)) :
  items.*1 ≡ₚ items'.*1 →
  element_count name (dict_display items)
    = element_count name (dict_display items').
Proof.
  intros Hp. rewrite !element_count_length.
  by rewrite (dict_display_keys_perm items items' Hp).
Qed.

(** What [max] picks among the four names. *)
Lemma dominant_value (fire water air earth : Z) :
  let counts :=
    dict_display
      [ ("Fire", fire); ("Water", water); ("Air", air); ("Earth", earth) ] in
  py_max (λ k, default 0 (assoc_get counts k)) counts.*1
    = Some (first_greatest fire water air earth).
Proof.
  intros counts. set (key := λ k, default 0 (assoc_get counts k)).
  assert (HF : key "Fire" = fire) by reflexivity.
  assert (HW : key "Water" = water) by reflexivity.
  assert (HA : key "Air" = air) by reflexivity.
  assert (HE : key "Earth" = earth) by reflexivity.
  change (counts.*1) with ["Fire"; "Water"; "Air"; "Earth"].
  unfold py_max, first_greatest. cbn [py_max_from]. rewrite HF, HW.
  destruct (fire <? water); rewrite ?HF, ?HW, HA;
    [destruct (water <? air)|destruct (fire <? air)];
    rewrite ?HF, ?HW, ?HA, HE; (destruct (_ <? earth)); reflexivity.
Qed.

Lemma rhythm_value (geomantic : gmap string pyval) (iching : iching_result)
    (tarot : gmap string pyval) :
  let elements :=
    dict_display
      [ (dict_get geomantic "element" (PyStr ""), 3);
        (dict_get (primary iching) "element" (PyStr ""), 2);
        (dict_get tarot "element" (PyStr ""), 1) ] in
  calculate_optimal_rhythm geomantic iching tarot
    = Some (default "Follow natural cycles and planetary timing"
              (rhythms !! first_greatest
                 (element_count "Fire" elements)
                 (element_count "Water" elements)
                 (element_count "Air" elements)
                 (element_count "Earth" elements))).
Proof.
  intros elements. unfold calculate_optimal_rhythm. cbv zeta.
  fold elements. by rewrite dominant_value.
Qed.


(** The weights 3, 2 and 1 of the three parts of a reading play no role,
    and neither does the part an element comes from: two readings whose
    elements are the same up to their order get the same rhythm. *)
Theorem optimal_rhythm_ignores_order (geomantic geomantic' : gmap string pyval)
    (iching iching' : iching_result) (tarot tarot' : gmap string pyval) :
  reading_elements geomantic iching tarot
    ≡ₚ reading_elements geomantic' iching' tarot' →
  calculate_optimal_rhythm geomantic iching tarot
    = calculate_optimal_rhythm geomantic' iching' tarot'.
Proof.
  intros Hp. rewrite !rhythm_value. cbv zeta.
  match goal with
  | |- context [first_greatest (element_count _ (dict_display ?items)) _ _ _
                = _ ] => idtac
  | |- Some (default _ (_ !! first_greatest
                               (element_count _ (dict_display ?items)) _ _ _))
       = Some (default _ (_ !! first_greatest
                               (element_count _ (dict_display ?items')) _ _ _))
    => by rewrite !(element_count_perm _ items items' Hp)
  end.
Qed.

Lemma optimal_rhythm_ignores_order_witness :
  calculate_optimal_rhythm {[ "element" := PyStr "Water" ]}
    {| binary := "111111"; lines := []; changing_lines := [];
       primary := {[ "element" := PyStr "Earth" ]};
       trigram_symbols := ("☰", "☰"); secondary := None;
       secondary_trigram_symbols := None |} ∅
  = calculate_optimal_rhythm ∅
      {| binary := "111111"; lines := []; changing_lines := [];
         primary := {[ "element" := PyStr "Water" ]};
         trigram_symbols := ("☰", "☰"); secondary := None;
         secondary_trigram_symbols := None |}
      {[ "element" := PyStr "Earth" ]}.
Proof.
  apply optimal_rhythm_ignores_order. unfold reading_elements, dict_get.
  cbn [primary]. rewrite !lookup_singleton_eq, !lookup_empty.
  cbn [default from_option]. unfold id.
  symmetry. apply (Permutation_cons_append [PyStr "Water"; PyStr "Earth"]).
Defined.

Lemma prefix_refl (s : string) : String.prefix s s = true.
Proof.
  induction s as [|a s IH]; [done|]. cbn [String.prefix].
  by destruct (ascii_dec a a).
Qed.

Lemma contains_refl (s : string) : contains s s = true.
Proof. destruct s; cbn [contains]; by rewrite prefix_refl. Qed.

Lemma mentions_str (name s : string) :
  mentions name (PyStr s) = Some (contains name s).
Proof.
  unfold mentions. f_equal. case_bool_decide as E.
  - subst. by rewrite contains_refl.
  - apply orb_false_r.
Qed.

(** On strings the test raises no exception. *)
Lemma all_truthy_strings (name : string) (es : list pyval) :
  Forall is_str es →
  all_truthy (mentions name) es = Some (all_mention name es).
Proof.
  unfold all_mention.
  induction 1 as [|e es [s ->] _ IH]; [done|]. cbn [all_truthy forallb].
  destruct (truthy (PyStr s)); cbn [negb orb andb]; [|exact IH].
  rewrite mentions_str. cbn [mbind option_bind py_str].
  by destruct (contains name s).
Qed.

Lemma filter_length_eq {A} (P Q : A → Prop) `{∀ x, Decision (P x)}
    `{∀ x, Decision (Q x)} (l : list A) :
  (∀ x, x ∈ l → P x ↔ Q x) → length (filter P l) = length (filter Q l).
Proof.
  induction l as [|x l IH]; intros HPQ; [done|].
  rewrite !filter_cons.
  pose proof (HPQ x (list_elem_of_here _ _)).
  specialize (IH (λ y Hy, HPQ y (list_elem_of_further _ _ _ Hy))).
  repeat case_decide; cbn [length]; tauto || lia.
Qed.

Lemma filter_length_le {A} (P Q : A → Prop) `{∀ x, Decision (P x)}
    `{∀ x, Decision (Q x)} (l : list A) :
  (∀ x, x ∈ l → P x → Q x) →
  (length (filter P l) ≤ length (filter Q l))%nat.
Proof.
  induction l as [|x l IH]; intros HPQ; [done|].
  rewrite !filter_cons.
  pose proof (HPQ x (list_elem_of_here _ _)).
  specialize (IH (λ y Hy, HPQ y (list_elem_of_further _ _ _ Hy))).
  repeat case_decide; cbn [length]; tauto || lia.
Qed.

Lemma filter_length_lt {A} (P Q : A → Prop) `{∀ x, Decision (P x)}
    `{∀ x, Decision (Q x)} (l : list A) (x : A) :
  (∀ x, x ∈ l → P x → Q x) → x ∈ l → Q x → ¬ P x →
  (length (filter P l) < length (filter Q l))%nat.
Proof.
  induction l as [|y l IH]; intros HPQ Hx HQ HP; [by apply elem_of_nil in Hx|].
  rewrite !filter_cons.
  pose proof (HPQ y (list_elem_of_here _ _)).
  pose proof (filter_length_le P Q l
                (λ z Hz, HPQ z (list_elem_of_further _ _ _ Hz))).
  apply elem_of_cons in Hx as [->|Hx].
  - repeat case_decide; cbn [length]; tauto || lia.
  - specialize (IH (λ z Hz, HPQ z (list_elem_of_further _ _ _ Hz)) Hx HQ HP).
    repeat case_decide; cbn [length]; tauto || lia.
Qed.

Lemma truthy_str (s : string) : truthy (PyStr s) = true ↔ s ≠ "".
Proof.
  unfold truthy. rewrite negb_true_iff. apply String.eqb_neq.
Qed.

(** How the number of keys that mention a name compares with the number
    of keys that are not empty. *)
Lemma count_vs_all (name : string) (es keys : list pyval) :
  contains name "" = false →
  Forall is_str es → (∀ k, k ∈ keys ↔ k ∈ es) →
  let count := length (filter (λ e, contains name (py_str e)) keys) in
  let filled := length (filter (λ e, truthy e) keys) in
  (count ≤ filled)%nat ∧
  (all_mention name es = true → count = filled) ∧
  (all_mention name es = false → (count < filled)%nat).
Proof.
  intros Hname Hstr Hkeys count filled.
  assert (Hsub : ∀ k, k ∈ keys → contains name (py_str k) → truthy k).
  { intros k Hk Hc. apply Hkeys in Hk.
    destruct (proj1 (Forall_forall _ _) Hstr k Hk) as [s ->].
    apply Is_true_true, truthy_str. intros ->.
    cbn [py_str] in Hc. rewrite Hname in Hc. done. }
  split; [by apply filter_length_le|]. split; intros Hall.
  - apply filter_length_eq. intros k Hk. split; [by apply Hsub|].
    intros Ht. unfold all_mention in Hall.
    apply Is_true_true in Hall. apply forallb_True in Hall.
    apply Hkeys in Hk.
    pose proof (proj1 (Forall_forall _ _) Hall k Hk) as Hone.
    cbv beta in Hone. apply Is_true_true in Ht. rewrite Ht in Hone. done.
  - assert (Hex : Exists (λ e, ¬ (negb (truthy e) || contains name (py_str e)))
                    es).
    { apply not_Forall_Exists; [apply _|]. intros HF.
      apply forallb_True, Is_true_true in HF. unfold all_mention in Hall.
      congruence. }
    apply Exists_exists in Hex as (e & He & Hne).
    apply (filter_length_lt _ _ keys e); [done|by apply Hkeys| |].
    + destruct (truthy e); [done|]. by destruct Hne.
    + intros Hc. apply Hne. apply Is_true_true in Hc. rewrite Hc.
      by rewrite orb_true_r.
Qed.

Lemma aspect_value (geomantic : gmap string pyval) (iching : iching_result)
    (tarot : gmap string pyval) :
  let es := reading_elements geomantic iching tarot in
  Forall is_str es →
  get_ogdoad_aspect geomantic iching tarot
    = Some (if all_mention "Fire" es then "Creative fire principle"
            else if all_mention "Water" es then "Receptive water principle"
            else if all_mention "Air" es then "Mediating air principle"
            else if all_mention "Earth" es then "Manifesting earth principle"
            else "Unified manifestation principle").
Proof.
  intros es Hstr. unfold get_ogdoad_aspect. cbv zeta.
  change [dict_get geomantic "element" (PyStr "");
          dict_get (primary iching) "element" (PyStr "");
          dict_get tarot "element" (PyStr "")] with es.
  rewrite (all_truthy_strings "Fire") by done. cbn [mbind option_bind].
  destruct (all_mention "Fire" es); [done|].
  rewrite (all_truthy_strings "Water") by done. cbn [mbind option_bind].
  destruct (all_mention "Water" es); [done|].
  rewrite (all_truthy_strings "Air") by done. cbn [mbind option_bind].
  destruct (all_mention "Air" es); [done|].
  rewrite (all_truthy_strings "Earth") by done. cbn [mbind option_bind].
  by destruct (all_mention "Earth" es).
Qed.

(** The two readings of the elements agree.  When the elements of the
    three records are strings, [get_ogdoad_aspect] raises no exception,
    and whenever it names the principle of an element,
    [calculate_optimal_rhythm] gives the rhythm of the same element.
    Records without elements get the fire principle. *)
Theorem aspect_rhythm_agree (geomantic : gmap string pyval)
    (iching : iching_result) (tarot : gmap string pyval) :
  Forall is_str (reading_elements geomantic iching tarot) →
  ∃ aspect rhythm,
    get_ogdoad_aspect geomantic iching tarot = Some aspect ∧
    calculate_optimal_rhythm geomantic iching tarot = Some rhythm ∧
    (aspect = "Creative fire principle" →
     rhythms !! "Fire" = Some rhythm) ∧
    (aspect = "Receptive water principle" →
     rhythms !! "Water" = Some rhythm) ∧
    (aspect = "Mediating air principle" →
     rhythms !! "Air" = Some rhythm) ∧
    (aspect = "Manifesting earth principle" →
     rhythms !! "Earth" = Some rhythm) ∧
    (Forall (λ e, truthy e = false) (reading_elements geomantic iching tarot) →
     aspect = "Creative fire principle").
Proof.
  intros Hstr. rewrite aspect_value by done. rewrite rhythm_value. cbv zeta.
  set (es := reading_elements geomantic iching tarot) in *.
  match goal with
  | |- context [element_count _ (dict_display ?items)] =>
      set (elements := dict_display items);
      destruct (dict_display_keys items) as [_ Hkeys]
  end.
  fold elements in Hkeys. change (_.*1) with es in Hkeys at 2.
  rewrite !element_count_length.
  destruct (count_vs_all "Fire" es elements.*1 eq_refl Hstr Hkeys)
    as (HF & HF1 & HF0).
  destruct (count_vs_all "Water" es elements.*1 eq_refl Hstr Hkeys)
    as (HW & HW1 & HW0).
  destruct (count_vs_all "Air" es elements.*1 eq_refl Hstr Hkeys)
    as (HA & HA1 & HA0).
  destruct (count_vs_all "Earth" es elements.*1 eq_refl Hstr Hkeys)
    as (HE & HE1 & HE0).
  assert (Hempty : Forall (λ e, truthy e = false) es →
                   all_mention "Fire" es = true).
  { intros Hnone. unfold all_mention. apply Is_true_true, forallb_True.
    eapply Forall_impl; [exact Hnone|]. intros e ->. done. }
  eexists _, _. split; [reflexivity|]. split; [reflexivity|].
  unfold first_greatest.
  destruct (all_mention "Fire" es);
    [|destruct (all_mention "Water" es);
      [|destruct (all_mention "Air" es);
        [|destruct (all_mention "Earth" es)]]];
    repeat match goal with
           | H : true = true → _ |- _ => specialize (H eq_refl)
           | H : false = false → _ |- _ => specialize (H eq_refl)
           | H : true = false → _ |- _ => clear H
           | H : false = true → _ |- _ => clear H
           end;
    repeat match goal with
           | |- context [?a <? ?b] => destruct (Z.ltb_spec a b); try lia
           end;
    split_and!; intros; try done; try lia;
    by match goal with H : Forall _ es |- _ => specialize (Hempty H) end.
Qed.

Lemma aspect_rhythm_agree_witness :
  ∃ aspect rhythm,
    get_ogdoad_aspect {[ "element" := PyStr "Water" ]}
      {| binary := "111111"; lines := []; changing_lines := [];
         primary := {[ "element" := PyStr "Water/Air" ]};
         trigram_symbols := ("☰", "☰"); secondary := None;
         secondary_trigram_symbols := None |} ∅ = Some aspect ∧
    calculate_optimal_rhythm {[ "element" := PyStr "Water" ]}
      {| binary := "111111"; lines := []; changing_lines := [];
         primary := {[ "element" := PyStr "Water/Air" ]};
         trigram_symbols := ("☰", "☰"); secondary := None;
         secondary_trigram_symbols := None |} ∅ = Some rhythm ∧
    aspect = "Receptive water principle" ∧
    rhythms !! "Water" = Some rhythm.
Proof.
  destruct (aspect_rhythm_agree {[ "element" := PyStr "Water" ]}
      {| binary := "111111"; lines := []; changing_lines := [];
         primary := {[ "element" := PyStr "Water/Air" ]};
         trigram_symbols := ("☰", "☰"); secondary := None;
         secondary_trigram_symbols := None |} ∅)
    as (aspect & rhythm & Ha & Hr & _ & Hw & _).
  { unfold reading_elements, dict_get. cbn [primary].
    rewrite !lookup_singleton_eq, !lookup_empty.
    repeat (apply Forall_cons; split; [by eexists|]). constructor. }
  exists aspect, rhythm. split; [done|]. split; [done|].
  assert (aspect = "Receptive water principle") as Haspect.
  { vm_compute in Ha. by injection Ha as <-. }
  split; [done|]. by apply Hw.
Defined.

End ElementClaims.

(** ** Generated geomantic figures *)

Module FigureClaims.
Import MagicSquareGenerator QuadrupleGoddessSystem CoinFacts.

Lemma comprehension_source {A} (n k : nat) (e : Rand A) : ∀ s,
  (∀ s', (e s').2 = advance k s') →
  (comprehension n e s).2 = advance (k * n) s.
Proof.
  induction n as [|n IH]; intros s He.
  - cbn. by rewrite Nat.mul_0_r, advance_0.
  - cbn [comprehension]. unfold mbind, rand_bind, mret, rand_ret.
    pose proof (He s) as Hs. destruct (e s) as [x s1]. cbn [snd] in Hs.
    specialize (IH s1 He).
    destruct (comprehension n e s1) as [xs s2]. cbn [snd] in *.
    rewrite IH, Hs, advance_advance. f_equal. lia.
Qed.

Lemma drawn_bits_source (s : RandomSource) :
  (comprehension 4 (x ← random_randint 0 1; mret (py_str_int x)) s).2
    = advance 4 s.
Proof.
  apply (comprehension_source 4 1). intros s'.
  unfold random_randint, mbind, rand_bind, mret, rand_ret, next_raw, advance.
  cbn. by rewrite Nat.add_1_r.
Qed.

Lemma drawn_bits (s : RandomSource) :
  Forall (λ b, b = "0" ∨ b = "1")
    (comprehension 4 (x ← random_randint 0 1; mret (py_str_int x)) s).1.
Proof.
  apply comprehension_Forall. intros s'.
  unfold random_randint, mbind, rand_bind, mret, rand_ret, next_raw. cbn [fst].
  assert (tape s' (pos s') `mod` (1 - 0 + 1) = 0
          ∨ tape s' (pos s') `mod` (1 - 0 + 1) = 1) as [->| ->]
    by (Z.to_euclidean_division_equations; lia); auto.
Qed.

(** The call written out: the key is drawn with four calls of
    [random.randint], and the record is the one of the table or the
    default one. *)
Lemma generate_geomantic_figure_eq geomancy_figures (s : RandomSource) :
  generate_geomantic_figure geomancy_figures s =
    (let display :=
       PyStr (display_geomantic_figure geomancy_figures (drawn_key s)) in
     match lookup_figure geomancy_figures (drawn_key s) with
     | Some figure =>
         (<["display" := display]> figure,
          <["figures" :=
              <[drawn_key s := <["display" := display]> figure]>
                (default ∅ (geomancy_figures !! "figures"))]>
            geomancy_figures)
     | None =>
         (<["display" := display]> (unknown_figure (drawn_key s)),
          geomancy_figures)
     end, advance 4 s).
Proof.
  unfold generate_geomantic_figure, drawn_key.
  pose proof (drawn_bits_source s) as Hs.
  unfold mbind at 1, rand_bind at 1.
  destruct (comprehension 4 _ s) as [bits s1]. cbn [fst snd] in *. subst s1.
  cbv zeta. by destruct (lookup_figure geomancy_figures (String.concat "" bits)).
Qed.

(** The key drawn is a string of four binary digits. *)
Lemma drawn_key_shape (s : RandomSource) :
  String.length (drawn_key s) = 4%nat ∧
  Forall (λ c, c = "0"%char ∨ c = "1"%char)
    (String.list_ascii_of_string (drawn_key s)).
Proof.
  unfold drawn_key. pose proof (drawn_bits s) as Hb.
  pose proof (comprehension_length 4
                (x ← random_randint 0 1; mret (py_str_int x)) s) as Hl.
  destruct (comprehension 4 _ s).1 as [|a [|b [|c [|d [|]]]]]; try done.
  apply Forall_cons in Hb as [Ha Hb]. apply Forall_cons in Hb as [Hb Hc].
  apply Forall_cons in Hc as [Hc Hd]. apply Forall_cons in Hd as [Hd _].
  destruct Ha as [-> | ->], Hb as [-> | ->], Hc as [-> | ->],
    Hd as [-> | ->]; (split; [reflexivity|]);
    repeat (apply Forall_cons; split; [auto|]); constructor.
Qed.

(** Every call draws four bits: the key is a string of four characters
    "0" or "1", the source is four draws further, and the figure returned
    carries under "display" the drawing made for the key. *)
Theorem generated_figure_key geomancy_figures (s : RandomSource) :
  let r := generate_geomantic_figure geomancy_figures s in
  r.2 = advance 4 s ∧
  String.length (drawn_key s) = 4%nat ∧
  Forall (λ c, c = "0"%char ∨ c = "1"%char)
    (String.list_ascii_of_string (drawn_key s)) ∧
  r.1.1 !! "display"
    = Some (PyStr (display_geomantic_figure geomancy_figures (drawn_key s))).
Proof.
  cbv zeta. rewrite generate_geomantic_figure_eq. cbv zeta. cbn [fst snd].
  split; [done|].
  destruct (drawn_key_shape s) as [Hlen Hchars].
  split; [done|]. split; [done|].
  destruct (lookup_figure geomancy_figures (drawn_key s));
    cbn [fst]; apply lookup_insert_eq.
Qed.

(** A key that the table does not have: the table is left as it is, the
    figure is the default record, named "Unknown" and ruled by the Moon,
    so its square is the 9 by 9 square of the Moon and its planet for the
    timing is the Moon. *)
Theorem generated_figure_unknown geomancy_figures (s : RandomSource) :
  lookup_figure geomancy_figures (drawn_key s) = None →
  let r := (generate_geomantic_figure geomancy_figures s).1 in
  r.2 = geomancy_figures ∧
  r.1 = <["display" :=
            PyStr (display_geomantic_figure geomancy_figures (drawn_key s))]>
          (unknown_figure (drawn_key s)) ∧
  r.1 !! "name" = Some (binary_to_geomantic geomancy_figures (drawn_key s)) ∧
  r.1 !! "binary" = Some (PyStr (drawn_key s)) ∧
  get_magic_square_for_geomantic r.1 = generate_moon_square () ∧
  get_optimal_planet r.1 = "Moon".
Proof.
  intros Hnone. cbv zeta. rewrite generate_geomantic_figure_eq. cbv zeta.
  rewrite Hnone. cbn [fst snd]. split; [done|]. split; [done|].
  unfold binary_to_geomantic. rewrite Hnone.
  unfold get_magic_square_for_geomantic, get_optimal_planet, dict_get.
  rewrite !lookup_insert_ne by done. unfold unknown_figure.
  split_and!; reflexivity.
Qed.

Lemma generated_figure_unknown_witness :
  let s := {| tape := λ n, Z.of_nat n; pos := 0 |} in
  let r := (generate_geomantic_figure default_figures s).1 in
  r.2 = default_figures ∧
  r.1 = <["display" :=
            PyStr (display_geomantic_figure default_figures (drawn_key s))]>
          (unknown_figure (drawn_key s)) ∧
  r.1 !! "name" = Some (binary_to_geomantic default_figures (drawn_key s)) ∧
  r.1 !! "binary" = Some (PyStr (drawn_key s)) ∧
  get_magic_square_for_geomantic r.1 = generate_moon_square () ∧
  get_optimal_planet r.1 = "Moon".
Proof.
  apply (generated_figure_unknown default_figures
           {| tape := λ n, Z.of_nat n; pos := 0 |}).
  reflexivity.
Defined.

(** A key of the table: the figure returned is the record of the table
    with its drawing added, and the table holds that very record
    afterwards, the other records being untouched; the loaded data thus
    change at the first call for a key, and at no later call: a call that
    draws the same key again returns the same figure and the same table. *)
Theorem generated_figure_stored geomancy_figures (s : RandomSource)
    (figure : gmap string pyval) :
  lookup_figure geomancy_figures (drawn_key s) = Some figure →
  let r := (generate_geomantic_figure geomancy_figures s).1 in
  r.1 = <["display" :=
            PyStr (display_geomantic_figure geomancy_figures (drawn_key s))]>
          figure ∧
  lookup_figure r.2 (drawn_key s) = Some r.1 ∧
  (∀ key, key ≠ drawn_key s →
          lookup_figure r.2 key = lookup_figure geomancy_figures key) ∧
  (∀ s', drawn_key s' = drawn_key s →
         (generate_geomantic_figure r.2 s').1 = r).
Proof.
  intros Hsome. cbv zeta. rewrite generate_geomantic_figure_eq. cbv zeta.
  rewrite Hsome. cbn [fst snd].
  set (key := drawn_key s) in *.
  set (display := PyStr (display_geomantic_figure geomancy_figures key)).
  set (stored := <["display" := display]> figure).
  set (table := <["figures" :=
                    <[key := stored]>
                      (default ∅ (geomancy_figures !! "figures"))]>
                  geomancy_figures).
  assert (Hfigures : table !! "figures"
                     = Some (<[key := stored]>
                               (default ∅ (geomancy_figures !! "figures"))))
    by apply lookup_insert_eq.
  assert (Hstored : lookup_figure table key = Some stored).
  { unfold lookup_figure. rewrite Hfigures. apply lookup_insert_eq. }
  split; [done|]. split; [done|]. split.
  - intros key' Hne. unfold lookup_figure. rewrite Hfigures.
    cbn [default from_option]. unfold id. by rewrite lookup_insert_ne.
  - intros s' Hkey. rewrite generate_geomantic_figure_eq. cbv zeta.
    rewrite Hkey. fold key. rewrite Hstored. cbn [fst].
    assert (Hdisplay : display_geomantic_figure table key
                       = display_geomantic_figure geomancy_figures key).
    { unfold display_geomantic_figure. cbv zeta. rewrite Hstored.
      rewrite Hsome.
      cbn [default from_option]. unfold id, stored, dict_get.
      by rewrite lookup_insert_ne. }
    rewrite Hdisplay. fold display. f_equal.
    + unfold stored. apply insert_insert_eq.
    + rewrite Hfigures. cbn [default from_option]. unfold id.
      unfold table. rewrite insert_insert_eq. f_equal.
      rewrite insert_insert_eq. f_equal. unfold stored.
      apply insert_insert_eq.
Qed.

Lemma generated_figure_stored_witness :
  let s := {| tape := λ _, 1; pos := 0 |} in
  ∃ figure,
    lookup_figure default_figures (drawn_key s) = Some figure ∧
    let r := (generate_geomantic_figure default_figures s).1 in
    r.1 = <["display" :=
              PyStr (display_geomantic_figure default_figures (drawn_key s))]>
            figure ∧
    lookup_figure r.2 (drawn_key s) = Some r.1 ∧
    (∀ key, key ≠ drawn_key s →
            lookup_figure r.2 key = lookup_figure default_figures key) ∧
    (∀ s', drawn_key s' = drawn_key s →
           (generate_geomantic_figure r.2 s').1 = r).
Proof.
  intros s. eexists. split; [reflexivity|].
  apply (generated_figure_stored default_figures s). reflexivity.
Defined.

End FigureClaims.

(** ** Numbers read from binary strings *)

Module NumberClaims.
Import InterpretationDepthSystem ReduceClaims FigureClaims.

Lemma bits_only_reads : reads_base2 bits_only.
Proof. intros s Hs. unfold bits_only. by rewrite decide_True. Qed.

Lemma binary_fold_bound (l : list ascii) : ∀ acc,
  0 ≤ acc →
  let v := foldl (λ acc (c : ascii),
                    2 * acc + (if decide (c = "1"%char) then 1 else 0)) acc l in
  acc * 2 ^ Z.of_nat (length l) ≤ v < (acc + 1) * 2 ^ Z.of_nat (length l).
Proof.
  induction l as [|c l IH]; intros acc Hacc; cbn [foldl length].
  - cbn. lia.
  - specialize (IH (2 * acc + (if decide (c = "1"%char) then 1 else 0))).
    rewrite Nat2Z.inj_succ, Z.pow_succ_r by lia.
    assert (0 < 2 ^ Z.of_nat (length l)) by (apply Z.pow_pos_nonneg; lia).
    case_decide; specialize (IH ltac:(lia)); cbv zeta in IH; nia.
Qed.

(** A string of [n] characters denotes a number below [2 ^ n]. *)
Lemma binary_value_bound (s : string) :
  0 ≤ binary_value s < 2 ^ Z.of_nat (String.length s).
Proof.
  unfold binary_value.
  pose proof (binary_fold_bound (String.list_ascii_of_string s) 0 ltac:(lia))
    as H.
  cbv zeta in H.
  assert (length (String.list_ascii_of_string s) = String.length s) as Hlen.
  { clear. induction s as [|a s IH]; [done|]. cbn. by rewrite IH. }
  rewrite Hlen in H. lia.
Qed.

Lemma archetypes_lookup (v : Z) (a : string) :
  archetypes !! v = Some a → 0 ≤ v ≤ 15 ∧ a ≠ "Unique numerical signature".
Proof.
  intros H. apply elem_of_list_to_map_2 in H.
  repeat (apply elem_of_cons in H as [[= -> ->]|H]);
    [..|by apply elem_of_nil in H]; (split; [lia|done]).
Qed.

Lemma archetypes_found (v : Z) : 0 ≤ v ≤ 15 → is_Some (archetypes !! v).
Proof.
  intros H.
  assert (v = 0 ∨ v = 1 ∨ v = 2 ∨ v = 3 ∨ v = 4 ∨ v = 5 ∨ v = 6 ∨ v = 7 ∨
          v = 8 ∨ v = 9 ∨ v = 10 ∨ v = 11 ∨ v = 12 ∨ v = 13 ∨ v = 14 ∨
          v = 15) as Hv by lia.
  repeat destruct Hv as [->|Hv]; try subst v; by eexists.
Qed.

Section Numbers.
Variable int_base2 : string → option Z.
Hypothesis int_base2_reads : reads_base2 int_base2.

Lemma binary_to_decimal_bits (s : string) :
  is_bit_string s → binary_to_decimal int_base2 s = binary_value s.
Proof.
  intros Hs. unfold binary_to_decimal. by rewrite int_base2_reads.
Qed.

Lemma archetype_unique_iff (binary_str : string) :
  is_bit_string binary_str →
  get_numerical_archetype int_base2 binary_str = "Unique numerical signature"
  ↔ 16 ≤ binary_value binary_str.
Proof.
  intros Hs. unfold get_numerical_archetype.
  rewrite binary_to_decimal_bits by done.
  pose proof (binary_value_bound binary_str) as [Hpos _].
  destruct (archetypes !! binary_value binary_str) as [a|] eqn:E.
  - apply archetypes_lookup in E as [Hv Ha]. cbn. split; [done|lia].
  - cbn. split; [|done]. intros _.
    destruct (Z.le_gt_cases 16 (binary_value binary_str)) as [|Hlt]; [done|].
    destruct (archetypes_found (binary_value binary_str)) as [a Ha]; [lia|].
    congruence.
Qed.

(** On a string of binary digits the closing answer "Unique numerical
    signature" is given exactly when the number is 16 or more; a string
    of four digits or less always has an archetype. *)
Theorem archetype_cases (binary_str : string) :
  is_bit_string binary_str →
  (get_numerical_archetype int_base2 binary_str = "Unique numerical signature"
   ↔ 16 ≤ binary_value binary_str) ∧
  ((String.length binary_str ≤ 4)%nat →
   archetypes !! binary_value binary_str
     = Some (get_numerical_archetype int_base2 binary_str)).
Proof.
  intros Hs. split; [by apply archetype_unique_iff|].
  intros Hlen. pose proof (binary_value_bound binary_str) as [Hpos Hlt].
  assert (2 ^ Z.of_nat (String.length binary_str) ≤ 2 ^ 4)
    by (apply Z.pow_le_mono_r; lia).
  destruct (archetypes_found (binary_value binary_str)) as [a Ha]; [lia|].
  unfold get_numerical_archetype. rewrite binary_to_decimal_bits by done.
  by rewrite Ha.
Qed.

(** The key of every generated figure has an archetype: the number read
    from it lies between 0 and 15. *)
Theorem figure_key_archetype (s : RandomSource) :
  0 ≤ binary_to_decimal int_base2 (drawn_key s) ≤ 15 ∧
  archetypes !! binary_to_decimal int_base2 (drawn_key s)
    = Some (get_numerical_archetype int_base2 (drawn_key s)) ∧
  get_numerical_archetype int_base2 (drawn_key s)
    ≠ "Unique numerical signature".
Proof.
  destruct (drawn_key_shape s) as [Hlen Hchars].
  assert (Hbits : is_bit_string (drawn_key s)).
  { split; [|done]. intros E. by rewrite E in Hlen. }
  rewrite binary_to_decimal_bits by done.
  pose proof (binary_value_bound (drawn_key s)) as Hb. rewrite Hlen in Hb.
  change (2 ^ Z.of_nat 4) with 16 in Hb.
  split; [lia|].
  destruct (archetypes_found (binary_value (drawn_key s))) as [a Ha]; [lia|].
  unfold get_numerical_archetype. rewrite binary_to_decimal_bits by done.
  rewrite Ha. cbn. split; [done|].
  by apply archetypes_lookup in Ha as [_ ?].
Qed.


End Numbers.

Lemma archetype_cases_witness :
  (get_numerical_archetype bits_only "10110" = "Unique numerical signature"
   ↔ 16 ≤ binary_value "10110") ∧
  ((String.length "10110" ≤ 4)%nat →
   archetypes !! binary_value "10110"
     = Some (get_numerical_archetype bits_only "10110")).
Proof.
  apply (archetype_cases bits_only bits_only_reads "10110").
  split; [done|]. repeat (apply Forall_cons; split; [auto|]). constructor.
Defined.

Lemma figure_key_archetype_witness :
  let s := {| tape := λ n, Z.of_nat n; pos := 0 |} in
  0 ≤ binary_to_decimal bits_only (drawn_key s) ≤ 15 ∧
  archetypes !! binary_to_decimal bits_only (drawn_key s)
    = Some (get_numerical_archetype bits_only (drawn_key s)) ∧
  get_numerical_archetype bits_only (drawn_key s)
    ≠ "Unique numerical signature".
Proof.
  intros s. apply (figure_key_archetype bits_only bits_only_reads s).
Defined.


End NumberClaims.
